(** * IoT fan speed controller backend: a shallow embedding of its two servers

    The repository holds two variants of one Express server over a
    Mongoose document store:

    - [Serverless]: the active code of [src/server.js] (no push channel,
      database connection made inside every route); the first half of that
      file is a commented-out copy of the other variant;
    - [Push]: [src/unnamed/part_000] (Socket.IO push channel, connection and
      config initialisation made once at start-up).

    The handlers are translated as computations of a small state-and-error
    monad over an environment that holds the document store, the clock, the
    behaviour of the storage round trips still to come, the process-wide
    [isConnected] flag, the console and the events emitted on the push
    channel. *)

From Stdlib Require Import ZArith NArith QArith List String Ascii Bool Lia.
From Stdlib Require Import Sorting.Sorted Sorting.Permutation.
Import ListNotations.

Local Open Scope string_scope.
Local Open Scope Z_scope.

(** ** JavaScript values *)

(** A number of the request body or of a stored document: an IEEE double.
    A finite one is kept as the rational it is equal to, with [-0] apart
    from [0].  The handlers pass the numbers of a body along as they are;
    only the conversion of a string to a number computes one, and it
    rounds.  [NaN] has no constructor: a JSON body cannot carry it and the
    store never accepts it. *)
Inductive jsnum :=
| Finite (q : Q)
| NegZero
| PosInfinity
| NegInfinity.

(** The values a parsed JSON body can hold, and [undefined], the value of a
    property the body lacks. *)
#[warnings="-register-all"]
Inductive jsval :=
| JUndefined
| JNull
| JBool (b : bool)
| JNum (n : jsnum)
| JStr (s : string)
| JArr (items : list jsval)
| JObj (fields : list (string * jsval)).

(** [req.body] after [bodyParser.json()]: the own properties of the parsed
    object, each key once. *)
Definition Body := list (string * jsval).

(** [const { key } = req.body]: the property, or [undefined] when absent. *)
Fixpoint get_prop (key : string) (b : Body) : jsval :=
  match b with
  | [] => JUndefined
  | (k, v) :: rest => if String.eqb k key then v else get_prop key rest
  end.

(** [v === undefined] *)
Definition is_undefined (v : jsval) : bool :=
  match v with
  | JUndefined => true
  | _ => false
  end.

(** ** The cast of the schema type [Number]

    Both schemas declare their payload fields as [Number]
    ([temperature: Number], [fanSpeed: Number],
    [threshold: { type: Number, default: 30 }]).  The store casts every value
    written to such a path: [null] and [undefined] pass, the empty string
    becomes [null], strings and booleans go through the JavaScript
    conversion [Number(...)], numbers pass, and everything else (arrays,
    plain objects, strings that read as [NaN]) is a cast error. *)

Module NumberCast.

Definition bytes (s : string) : list N :=
  map N_of_ascii (list_ascii_of_string s).

Local Open Scope N_scope.

(** One-byte white space and line terminators: TAB, LF, VT, FF, CR, SP. *)
Definition is_ws1 (c : N) : bool :=
  ((9 <=? c) && (c <=? 13)) || (c =? 32).

(** U+00A0 in UTF-8. *)
Definition is_ws2 (c1 c2 : N) : bool :=
  (c1 =? 194) && (c2 =? 160).

(** U+1680, U+2000..U+200A, U+2028, U+2029, U+202F, U+205F, U+3000 and
    U+FEFF in UTF-8. *)
Definition is_ws3 (c1 c2 c3 : N) : bool :=
  ((c1 =? 225) && (c2 =? 154) && (c3 =? 128))
  || ((c1 =? 226) && (c2 =? 128)
      && (((128 <=? c3) && (c3 <=? 138)) || (c3 =? 168) || (c3 =? 169)
          || (c3 =? 175)))
  || ((c1 =? 226) && (c2 =? 129) && (c3 =? 159))
  || ((c1 =? 227) && (c2 =? 128) && (c3 =? 128))
  || ((c1 =? 239) && (c2 =? 187) && (c3 =? 191)).

Fixpoint skip_ws (s : list N) : list N :=
  match s with
  | [] => []
  | c1 :: r1 =>
      if is_ws1 c1 then skip_ws r1
      else match r1 with
           | [] => s
           | c2 :: r2 =>
               if is_ws2 c1 c2 then skip_ws r2
               else match r2 with
                    | [] => s
                    | c3 :: r3 => if is_ws3 c1 c2 c3 then skip_ws r3 else s
                    end
           end
  end.

Definition only_ws (s : list N) : bool :=
  match skip_ws s with
  | [] => true
  | _ => false
  end.

Definition digit_of (base c : N) : option N :=
  let d := if (48 <=? c) && (c <=? 57) then Some (c - 48)
           else if (97 <=? c) && (c <=? 102) then Some (c - 87)
           else if (65 <=? c) && (c <=? 70) then Some (c - 55)
           else None in
  match d with
  | Some v => if v <? base then Some v else None
  | None => None
  end.

(** The longest run of digits in [base]: its value, its length, the rest. *)
Fixpoint read_digits (base : N) (s : list N) (acc : N) (cnt : nat)
  : N * nat * list N :=
  match s with
  | [] => (acc, cnt, [])
  | c :: r =>
      match digit_of base c with
      | Some d => read_digits base r (acc * base + d) (S cnt)
      | None => (acc, cnt, s)
      end
  end.

(** [0x], [0o], [0b] literals (either case of the letter), unsigned. *)
Definition read_nondecimal (s : list N) : option (N * list N) :=
  match s with
  | 48 :: p :: r =>
      let base := if (p =? 120) || (p =? 88) then Some 16
                  else if (p =? 111) || (p =? 79) then Some 8
                  else if (p =? 98) || (p =? 66) then Some 2
                  else None in
      match base with
      | Some b =>
          match read_digits b r 0 0 with
          | (_, O, _) => None
          | (v, _, rest) => Some (v, rest)
          end
      | None => None
      end
  | _ => None
  end.

Definition read_sign (s : list N) : bool * list N :=
  match s with
  | 43 :: r => (false, r)
  | 45 :: r => (true, r)
  | _ => (false, s)
  end.

(** The exponent part [e±ddd], when one is there. *)
Definition read_exponent (s : list N) : Z * list N :=
  match s with
  | e :: r =>
      if (e =? 101) || (e =? 69) then
        let '(neg, r') := read_sign r in
        match read_digits 10 r' 0 0 with
        | (_, O, _) => (0%Z, s)
        | (v, _, rest) => ((if neg then - Z.of_N v else Z.of_N v)%Z, rest)
        end
      else (0%Z, s)
  | [] => (0%Z, s)
  end.

Definition infinity_lit : list N := bytes "Infinity".

Fixpoint strip_prefix (p s : list N) : option (list N) :=
  match p, s with
  | [], _ => Some s
  | a :: p', b :: s' => if a =? b then strip_prefix p' s' else None
  | _ :: _, [] => None
  end.

(** The double nearest to the positive rational [a / d], ties to even, as
    a mantissa of at most 53 bits and a binary exponent not below that of
    the subnormals; [None] when the rounded value is out of range. *)
Definition nearest_double (a d : Z) : option (Z * Z) :=
  let l := (Z.log2 a - Z.log2 d)%Z in
  let reached := if (0 <=? l)%Z then (d * 2 ^ l <=? a)%Z
                 else (d <=? a * 2 ^ (- l))%Z in
  let magnitude := if reached then l else (l - 1)%Z in
  let e := Z.max (magnitude - 52) (-1074) in
  let num := if (e <? 0)%Z then (a * 2 ^ (- e))%Z else a in
  let den := if (e <? 0)%Z then d else (d * 2 ^ e)%Z in
  let q := (num / den)%Z in
  let r := (num mod den)%Z in
  let m := if (den <? 2 * r)%Z then (q + 1)%Z
           else if ((2 * r =? den) && Z.odd q)%Z then (q + 1)%Z
           else q in
  if ((971 <? e) || ((e =? 971) && (m =? 2 ^ 53)))%Z then None
  else Some (m, e).

(** The Number value of the mathematical value [a / d] ([a] not negative,
    [d] positive) under the sign [neg]. *)
Definition to_double (neg : bool) (a d : Z) : jsnum :=
  let zero := if neg then NegZero else Finite 0 in
  if (a =? 0)%Z then zero
  else match nearest_double a d with
       | None => if neg then NegInfinity else PosInfinity
       | Some (m, e) =>
           if (m =? 0)%Z then zero
           else Finite (Qred (inject_Z (if neg then - m else m)
                              * Qpower (inject_Z 2) e))
       end.

(** A signed decimal literal: mantissa digits, optional fraction, optional
    exponent, or [Infinity].  Its value is rounded to a double. *)
Definition read_decimal (s : list N) : option (jsnum * list N) :=
  let '(neg, s1) := read_sign s in
  match strip_prefix infinity_lit s1 with
  | Some rest => Some (if neg then NegInfinity else PosInfinity, rest)
  | None =>
      let '(ip, ci, s2) := read_digits 10 s1 0 0 in
      let '(fp, cf, s3) :=
        match s2 with
        | 46 :: r => read_digits 10 r 0 0
        | _ => (0, O, s2)
        end in
      match ci, cf with
      | O, O => None
      | _, _ =>
          let '(ex, rest) := read_exponent s3 in
          let m := Z.of_N (ip * 10 ^ N.of_nat cf + fp) in
          let k := (ex - Z.of_nat cf)%Z in
          let n := if (0 <=? k)%Z then to_double neg (m * 10 ^ k) 1
                   else to_double neg m (10 ^ (- k)) in
          Some (n, rest)
      end
  end.

(** [Number(str)] on a string: the literal is read and its value rounded
    to the nearest double, ties to even, however many digits it has (as
    the engine of Node does); [None] stands for [NaN]. *)
Definition StringToNumber (str : string) : option jsnum :=
  match skip_ws (bytes str) with
  | [] => Some (Finite 0)
  | s =>
      match read_nondecimal s with
      | Some (v, rest) =>
          if only_ws rest then Some (to_double false (Z.of_N v) 1) else None
      | None =>
          match read_decimal s with
          | Some (n, rest) => if only_ws rest then Some n else None
          | None => None
          end
      end
  end.

(** The cast itself; [None] is the cast error. *)
Definition castNumber (val : jsval) : option jsval :=
  match val with
  | JUndefined => Some JUndefined
  | JNull => Some JNull
  | JStr s =>
      if String.eqb s "" then Some JNull
      else match StringToNumber s with
           | Some n => Some (JNum n)
           | None => None
           end
  | JBool b => Some (JNum (Finite (if b then 1 else 0)))
  | JNum n => Some (JNum n)
  | JArr _ => None
  | JObj _ => None
  end.

End NumberCast.
Arguments NumberCast.castNumber : simpl never.

Import NumberCast.


(** ** Documents and the store *)

(** A document of the [Data] collection ([dataSchema]). *)
Record DataDoc := {
  data_id : N;
  temperature : jsval;
  fanSpeed : jsval;
  timestamp : Z
}.

(** A document of the [Config] collection ([configSchema]). *)
Record ConfigDoc := {
  config_id : N;
  threshold : jsval;
  lastUpdated : Z
}.

(** The stored state: both collections, each in its natural (insertion)
    order. *)
Record Store := {
  datas : list DataDoc;
  configs : list ConfigDoc
}.

(** ** Errors, responses, events *)

(** What a storage call can throw. *)
Inductive Error :=
| StorageError (message : string)
| CastError (path : string) (value : jsval)
| ValidationError (invalid : list (string * jsval)).

(** The [message] put in an error body: a literal of a handler, or
    [err.message] of a caught error. *)
Inductive Message :=
| Literal (s : string)
| MessageOf (err : Error).

Inductive Payload :=
| PText (s : string)
| PError (error : Message)
| PReadings (data : list DataDoc)
| PReading (newData : DataDoc)
| PConfig (config : option ConfigDoc).

Record Response := {
  status : Z;
  payload : Payload
}.

(** Events of the push channel ([io.emit]). *)
Inductive Event :=
| data_update (temperature fanSpeed : jsval) (timestamp : Z)
| config_update (threshold : jsval).

Inductive LogEntry :=
| Log (s : string)
| LogError (s : string) (err : Error).

(** ** The environment *)

(** The storage calls that make a round trip to the database. *)
Inductive StorageOp :=
| OpConnect
| OpCountDocuments
| OpCreate
| OpFind
| OpFindOne
| OpFindOneAndUpdate
| OpSave.

(** What the next round trip will do: the time it takes, and the error it
    fails with, if any. *)
Record Tick := {
  delay : N;
  fault : option string
}.

(** [pending] lists the behaviour of the round trips to come (when it is
    exhausted, a round trip takes no time and succeeds); [trace] is a ghost
    record of the round trips made, latest first. *)
Record Env := {
  store : Store;
  clock : Z;
  pending : list Tick;
  next_oid : N;
  isConnected : bool;
  console : list LogEntry;
  emitted : list Event;
  trace : list (StorageOp * option string)
}.

Definition set_store (s : Store) (e : Env) : Env :=
  {| store := s; clock := clock e; pending := pending e;
     next_oid := next_oid e; isConnected := isConnected e;
     console := console e; emitted := emitted e; trace := trace e |}.

Definition set_next_oid (n : N) (e : Env) : Env :=
  {| store := store e; clock := clock e; pending := pending e;
     next_oid := n; isConnected := isConnected e;
     console := console e; emitted := emitted e; trace := trace e |}.

Definition set_isConnected (b : bool) (e : Env) : Env :=
  {| store := store e; clock := clock e; pending := pending e;
     next_oid := next_oid e; isConnected := b;
     console := console e; emitted := emitted e; trace := trace e |}.

Definition add_console (l : LogEntry) (e : Env) : Env :=
  {| store := store e; clock := clock e; pending := pending e;
     next_oid := next_oid e; isConnected := isConnected e;
     console := l :: console e; emitted := emitted e; trace := trace e |}.

Definition add_emitted (ev : Event) (e : Env) : Env :=
  {| store := store e; clock := clock e; pending := pending e;
     next_oid := next_oid e; isConnected := isConnected e;
     console := console e; emitted := ev :: emitted e; trace := trace e |}.

(** One round trip: the head of [pending] is consumed, the clock advances by
    its delay and the outcome is recorded. *)
Definition step_tick (op : StorageOp) (e : Env) : option string * Env :=
  match pending e with
  | [] =>
      (None,
       {| store := store e; clock := clock e; pending := [];
          next_oid := next_oid e; isConnected := isConnected e;
          console := console e; emitted := emitted e;
          trace := (op, None) :: trace e |})
  | t :: rest =>
      (fault t,
       {| store := store e; clock := clock e + Z.of_N (delay t);
          pending := rest;
          next_oid := next_oid e; isConnected := isConnected e;
          console := console e; emitted := emitted e;
          trace := (op, fault t) :: trace e |})
  end.

(** ** The monad of the handlers: state and exceptions *)

Inductive Result (A : Type) :=
| Ok (a : A)
| Throw (err : Error).
Arguments Ok {A} a.
Arguments Throw {A} err.

Definition M (A : Type) : Type := Env -> Result A * Env.

Definition ret {A} (a : A) : M A := fun e => (Ok a, e).

Definition bind {A B} (c : M A) (k : A -> M B) : M B :=
  fun e =>
    match c e with
    | (Ok a, e') => k a e'
    | (Throw err, e') => (Throw err, e')
    end.

Definition throw {A} (err : Error) : M A := fun e => (Throw err, e).

(** [try { body } catch (err) { handler }] *)
Definition try_catch {A} (body : M A) (handler : Error -> M A) : M A :=
  fun e =>
    match body e with
    | (Ok a, e') => (Ok a, e')
    | (Throw err, e') => handler err e'
    end.

Declare Scope handler_scope.
Delimit Scope handler_scope with handler.
Notation "x <- c ;; k" := (bind c (fun x => k))
  (at level 61, c at next level, right associativity) : handler_scope.
Notation "c ;; k" := (bind c (fun _ => k))
  (at level 61, right associativity) : handler_scope.
Local Open Scope handler_scope.

Definition gets {A} (f : Env -> A) : M A := fun e => (Ok (f e), e).
Definition modify (f : Env -> Env) : M unit := fun e => (Ok tt, f e).

(** [Date.now()] *)
Definition Date_now : M Z := gets clock.

Definition console_log (s : string) : M unit := modify (add_console (Log s)).
Definition console_error (s : string) (err : Error) : M unit :=
  modify (add_console (LogError s err)).

(** [io.emit(...)] *)
Definition io_emit (ev : Event) : M unit := modify (add_emitted ev).

(** A fresh [ObjectId]. *)
Definition new_ObjectId : M N :=
  fun e => (Ok (next_oid e), set_next_oid (N.succ (next_oid e)) e).

(** A round trip to the database, failing with the error it meets. *)
Definition roundtrip (op : StorageOp) : M unit :=
  fun e =>
    match step_tick op e with
    | (None, e') => (Ok tt, e')
    | (Some message, e') => (Throw (StorageError message), e')
    end.

(** ** The storage calls of the two models, [Data] and [Config]

    The document store and its client library are not part of the
    repository.  Each call the handlers make on the models is given the
    meaning the library documents for it: the values written are cast to
    the schema types first (a failure is thrown before anything is sent),
    then one round trip is made, which can fail, and only a round trip that
    succeeds reads or changes the store. *)

(** Descending order on [timestamp]; among equal timestamps the natural
    order is kept. *)
Fixpoint insert_desc (d : DataDoc) (l : list DataDoc) : list DataDoc :=
  match l with
  | [] => [d]
  | x :: rest =>
      if timestamp x <=? timestamp d then d :: l
      else x :: insert_desc d rest
  end.

Fixpoint sort_desc (l : list DataDoc) : list DataDoc :=
  match l with
  | [] => []
  | d :: rest => insert_desc d (sort_desc rest)
  end.

(** The readings [l], newest first, cut after [limit]. *)
Definition recent (limit : nat) (l : list DataDoc) : list DataDoc :=
  firstn limit (sort_desc l).
Arguments recent : simpl never.

(** [Data.find().sort({ timestamp: -1 }).limit(limit)] *)
Definition Data_find_sort_limit (limit : nat) : M (list DataDoc) :=
  roundtrip OpFind ;;
  s <- gets store ;;
  ret (recent limit (datas s)).

(** [Config.countDocuments()] *)
Definition Config_countDocuments : M nat :=
  roundtrip OpCountDocuments ;;
  s <- gets store ;;
  ret (List.length (configs s)).

(** [Config.findOne()]: the first document, or [null]. *)
Definition Config_findOne : M (option ConfigDoc) :=
  roundtrip OpFindOne ;;
  s <- gets store ;;
  ret (hd_error (configs s)).

(** [Config.create({ threshold })]: the document is built first (cast of
    the field, [lastUpdated] by its schema default [Date.now]), then
    saved. *)
Definition Config_create (thr : jsval) : M ConfigDoc :=
  match castNumber thr with
  | None => throw (ValidationError [("threshold", thr)])
  | Some v =>
      now <- Date_now ;;
      id <- new_ObjectId ;;
      let doc := {| config_id := id; threshold := v; lastUpdated := now |} in
      roundtrip OpCreate ;;
      modify (fun e =>
        set_store {| datas := datas (store e);
                     configs := configs (store e) ++ [doc] |} e) ;;
      ret doc
  end.

(** [Config.findOneAndUpdate({}, { threshold, lastUpdated },
    { new: true, upsert: true })]: the update is cast, then applied to the
    first document, which keeps its identity; when the collection is empty
    a document is inserted.  The document after the update is returned. *)
Definition Config_findOneAndUpdate (thr : jsval) (updated : Z)
  : M ConfigDoc :=
  match castNumber thr with
  | None => throw (CastError "threshold" thr)
  | Some v =>
      roundtrip OpFindOneAndUpdate ;;
      s <- gets store ;;
      match configs s with
      | c :: rest =>
          let doc := {| config_id := config_id c; threshold := v;
                        lastUpdated := updated |} in
          modify (set_store {| datas := datas s; configs := doc :: rest |}) ;;
          ret doc
      | [] =>
          id <- new_ObjectId ;;
          let doc := {| config_id := id; threshold := v;
                        lastUpdated := updated |} in
          modify (set_store {| datas := datas s; configs := [doc] |}) ;;
          ret doc
      end
  end.

(** A [Data] document under construction: a field whose cast failed is left
    unset and remembered for the validation that [save] runs. *)
Record DataModel := {
  doc : DataDoc;
  invalid : list (string * jsval)
}.

Definition cast_field (path : string) (v : jsval)
  : jsval * list (string * jsval) :=
  match castNumber v with
  | Some v' => (v', [])
  | None => (JUndefined, [(path, v)])
  end.

(** [new Data({ temperature, fanSpeed, timestamp })] *)
Definition Data_new (temp fan : jsval) (ts : Z) : M DataModel :=
  id <- new_ObjectId ;;
  let '(t, et) := cast_field "temperature" temp in
  let '(f, ef) := cast_field "fanSpeed" fan in
  ret {| doc := {| data_id := id; temperature := t; fanSpeed := f;
                   timestamp := ts |};
         invalid := et ++ ef |}.

(** [newData.save()] *)
Definition Data_save (m : DataModel) : M unit :=
  match invalid m with
  | [] =>
      roundtrip OpSave ;;
      modify (fun e =>
        set_store {| datas := datas (store e) ++ [doc m];
                     configs := configs (store e) |} e)
  | errs => throw (ValidationError errs)
  end.

(** [res.json(...)], [res.send(...)] and [res.status(code).json(...)] *)
Definition res_json (p : Payload) : M Response :=
  ret {| status := 200; payload := p |}.

Definition res_send (s : string) : M Response :=
  ret {| status := 200; payload := PText s |}.

Definition res_status_json (code : Z) (p : Payload) : M Response :=
  ret {| status := code; payload := p |}.

(** ** Requests *)

Inductive Endpoint :=
| GET_root
| GET_api_data
| GET_api_config
| POST_api_config
| POST_api_esp8266_data
| GET_api_esp8266_config.

Record Request := {
  endpoint : Endpoint;
  body : Body
}.

(** ** [src/server.js]: the serverless variant *)

Module Serverless.

Definition connectToDatabase : M unit :=
  connected <- gets isConnected ;;
  if connected then
    console_log "Using existing database connection"
  else
    try_catch
      (roundtrip OpConnect ;;
       modify (set_isConnected true) ;;
       console_log "MongoDB connected")
      (fun error =>
         console_error "Could not connect to MongoDB:" error ;;
         throw error).

Definition initializeConfig : M unit :=
  try_catch
    (configCount <- Config_countDocuments ;;
     if Nat.eqb configCount 0 then
       Config_create (JNum (Finite 30)) ;;
       console_log "Config initialized with default values"
     else ret tt)
    (fun error => console_error "Error initializing config:" error).

Definition get_root : M Response :=
  res_send "IoT Fan Speed Controller API is running".

Definition get_api_data : M Response :=
  try_catch
    (connectToDatabase ;;
     initializeConfig ;;
     data <- Data_find_sort_limit 50 ;;
     res_json (PReadings data))
    (fun err =>
       console_error "Error fetching data:" err ;;
       res_status_json 500 (PError (MessageOf err))).

Definition get_api_config : M Response :=
  try_catch
    (connectToDatabase ;;
     initializeConfig ;;
     config <- Config_findOne ;;
     res_json (PConfig config))
    (fun err =>
       console_error "Error fetching config:" err ;;
       res_status_json 500 (PError (MessageOf err))).

Definition post_api_config (req : Request) : M Response :=
  try_catch
    (connectToDatabase ;;
     let threshold := get_prop "threshold" (body req) in
     if is_undefined threshold then
       res_status_json 400 (PError (Literal "Threshold value is required"))
     else
       now <- Date_now ;;
       config <- Config_findOneAndUpdate threshold now ;;
       res_json (PConfig (Some config)))
    (fun err =>
       console_error "Error updating config:" err ;;
       res_status_json 500 (PError (MessageOf err))).

Definition post_api_esp8266_data (req : Request) : M Response :=
  try_catch
    (connectToDatabase ;;
     let temperature := get_prop "temperature" (body req) in
     let fanSpeed := get_prop "fanSpeed" (body req) in
     if is_undefined temperature || is_undefined fanSpeed then
       res_status_json 400
         (PError (Literal "Temperature and fan speed values are required"))
     else
       now <- Date_now ;;
       newData <- Data_new temperature fanSpeed now ;;
       Data_save newData ;;
       res_json (PReading (doc newData)))
    (fun err =>
       console_error "Error saving data:" err ;;
       res_status_json 500 (PError (MessageOf err))).

Definition get_api_esp8266_config : M Response :=
  try_catch
    (connectToDatabase ;;
     initializeConfig ;;
     config <- Config_findOne ;;
     res_json (PConfig config))
    (fun err =>
       console_error "Error fetching ESP8266 config:" err ;;
       res_status_json 500 (PError (MessageOf err))).

Definition handle (req : Request) : M Response :=
  match endpoint req with
  | GET_root => get_root
  | GET_api_data => get_api_data
  | GET_api_config => get_api_config
  | POST_api_config => post_api_config req
  | POST_api_esp8266_data => post_api_esp8266_data req
  | GET_api_esp8266_config => get_api_esp8266_config
  end.

End Serverless.

(** ** [src/unnamed/part_000]: the variant with the push channel *)

Module Push.

(** Run once at start-up, outside every handler; it has no [catch]. *)
Definition initializeConfig : M unit :=
  configCount <- Config_countDocuments ;;
  if Nat.eqb configCount 0 then
    Config_create (JNum (Finite 30)) ;;
    console_log "Config initialized with default values"
  else ret tt.

Definition get_root : M Response :=
  res_send "Express on Vercel".

Definition get_api_data : M Response :=
  try_catch
    (data <- Data_find_sort_limit 50 ;;
     res_json (PReadings data))
    (fun err => res_status_json 500 (PError (MessageOf err))).

Definition get_api_config : M Response :=
  try_catch
    (config <- Config_findOne ;;
     res_json (PConfig config))
    (fun err => res_status_json 500 (PError (MessageOf err))).

Definition post_api_config (req : Request) : M Response :=
  try_catch
    (let threshold := get_prop "threshold" (body req) in
     if is_undefined threshold then
       res_status_json 400 (PError (Literal "Threshold value is required"))
     else
       now <- Date_now ;;
       config <- Config_findOneAndUpdate threshold now ;;
       io_emit (config_update threshold) ;;
       res_json (PConfig (Some config)))
    (fun err => res_status_json 500 (PError (MessageOf err))).

Definition post_api_esp8266_data (req : Request) : M Response :=
  try_catch
    (let temperature := get_prop "temperature" (body req) in
     let fanSpeed := get_prop "fanSpeed" (body req) in
     if is_undefined temperature || is_undefined fanSpeed then
       res_status_json 400
         (PError (Literal "Temperature and fan speed values are required"))
     else
       now <- Date_now ;;
       newData <- Data_new temperature fanSpeed now ;;
       Data_save newData ;;
       io_emit (data_update temperature fanSpeed
                  (timestamp (doc newData))) ;;
       res_json (PReading (doc newData)))
    (fun err => res_status_json 500 (PError (MessageOf err))).

Definition get_api_esp8266_config : M Response :=
  try_catch
    (config <- Config_findOne ;;
     res_json (PConfig config))
    (fun err => res_status_json 500 (PError (MessageOf err))).

Definition handle (req : Request) : M Response :=
  match endpoint req with
  | GET_root => get_root
  | GET_api_data => get_api_data
  | GET_api_config => get_api_config
  | POST_api_config => post_api_config req
  | POST_api_esp8266_data => post_api_esp8266_data req
  | GET_api_esp8266_config => get_api_esp8266_config
  end.

End Push.

Inductive Variant := ServerlessVariant | PushVariant.

Definition handle (v : Variant) (req : Request) : M Response :=
  match v with
  | ServerlessVariant => Serverless.handle req
  | PushVariant => Push.handle req
  end.


(** ** Reading the environment *)

(** The error the next round trip fails with, if any. *)
Definition next_fault (e : Env) : option string :=
  match pending e with
  | [] => None
  | t :: _ => fault t
  end.

(** No round trip to come fails. *)
Definition fault_free (e : Env) : Prop :=
  Forall (fun t => fault t = None) (pending e).

(** [connectToDatabase] will not throw: the connection is cached, or the
    round trip that makes it succeeds. *)
Definition connection_available (v : Variant) (e : Env) : Prop :=
  match v with
  | PushVariant => True
  | ServerlessVariant => isConnected e = true \/ next_fault e = None
  end.

Definition bad_request (message : string) : Response :=
  {| status := 400; payload := PError (Literal message) |}.

Definition server_error (err : Error) : Response :=
  {| status := 500; payload := PError (MessageOf err) |}.

(** ** Predicates of the statements *)

(** Newest first, equal timestamps allowed. *)
Definition descending (l : list DataDoc) : Prop :=
  StronglySorted (fun a b => timestamp b <= timestamp a) l.

(** Newest first, every timestamp strictly below the one before. *)
Definition strictly_descending (l : list DataDoc) : Prop :=
  StronglySorted (fun a b => timestamp b < timestamp a) l.

Definition ok_readings (data : list DataDoc) : Result Response :=
  Ok {| status := 200; payload := PReadings data |}.

(** The request is answered 200 with [d], which is appended to the stored
    readings, stamped between the call and the completion of the request;
    the configuration is left alone. *)
Definition reading_stored (e e' : Env) (r : Result Response) (d : DataDoc)
  : Prop :=
  r = Ok {| status := 200; payload := PReading d |}
  /\ store e' = {| datas := datas (store e) ++ [d];
                   configs := configs (store e) |}
  /\ clock e <= timestamp d <= clock e'.

(** At most one [Config] document. *)
Definition singleton (s : Store) : Prop :=
  (List.length (configs s) <= 1)%nat.

(** A [Config] document with the default threshold. *)
Definition default_config (c : ConfigDoc) : Prop :=
  threshold c = JNum (Finite 30).

Definition ok_config (c : ConfigDoc) : Result Response :=
  Ok {| status := 200; payload := PConfig (Some c) |}.

(** The request was answered 200. *)
Definition succeeded (r : Result Response) : Prop :=
  exists p, r = Ok {| status := 200; payload := p |}.

(** [res.json(null)] *)
Definition ok_null : Result Response :=
  Ok {| status := 200; payload := PConfig None |}.

(** The error the round trip after the next [k] fails with, if any. *)
Definition fault_at (k : nat) (e : Env) : option string :=
  match nth_error (pending e) k with
  | Some t => fault t
  | None => None
  end.

(** The two round trips of [initializeConfig] on a store without [Config],
    the count and the create, both succeed. *)
Definition initialization_succeeds (e : Env) : Prop :=
  fault_at 0 e = None /\ fault_at 1 e = None.

(** The same inside a serverless route, where the connection comes first
    when it has to be made. *)
Definition route_initializes (e : Env) : Prop :=
  if isConnected e
  then fault_at 0 e = None /\ fault_at 1 e = None
  else fault_at 0 e = None /\ fault_at 1 e = None /\ fault_at 2 e = None.

(** What the query of a read route finds in a store. *)
Definition query_answer (ep : Endpoint) (s : Store) : Payload :=
  match ep with
  | GET_api_data => PReadings (recent 50 (datas s))
  | _ => PConfig (hd_error (configs s))
  end.

(** How a failed round trip of [op] with [message] ends in variant [v],
    [new] being the round trips of the request, latest first.  The count
    and the create of [initializeConfig] are caught inside it and only
    logged; the store is left as it was and the handler goes on to its
    query, whose outcome alone decides the answer.  Every other failure is
    answered 500 with the message. *)
Definition failure_outcome (v : Variant) (ep : Endpoint) (op : StorageOp)
  (message : string) (resp : Response)
  (new : list (StorageOp * option string)) (e e' : Env) : Prop :=
  match op with
  | OpCountDocuments | OpCreate =>
      v = ServerlessVariant
      /\ In (LogError "Error initializing config:" (StorageError message))
            (console e')
      /\ store e' = store e
      /\ exists query outcome rest,
           new = (query, outcome) :: rest
           /\ (query = OpFind \/ query = OpFindOne)
           /\ resp = match outcome with
                     | None => {| status := 200;
                                  payload := query_answer ep (store e) |}
                     | Some message' =>
                         server_error (StorageError message')
                     end
  | _ => resp = server_error (StorageError message)
  end.

(** Both variants answer [req] in [e] alike and leave the same store. *)
Definition same_outcome (req : Request) (e : Env) : Prop :=
  fst (handle ServerlessVariant req e) = fst (handle PushVariant req e)
  /\ store (snd (handle ServerlessVariant req e))
     = store (snd (handle PushVariant req e)).

Definition is_post (ep : Endpoint) : bool :=
  match ep with
  | POST_api_config | POST_api_esp8266_data => true
  | _ => false
  end.

Definition is_read (ep : Endpoint) : bool :=
  match ep with
  | GET_api_data | GET_api_config | GET_api_esp8266_config => true
  | _ => false
  end.

(** ** Predicates of the further properties *)

Definition is_none {A} (o : option A) : bool :=
  match o with
  | None => true
  | Some _ => false
  end.

Definition is_200 (resp : Response) : bool := status resp =? 200.

(** The reading a request adds to the store, read off its response. *)
Definition added (req : Request) (r : Result Response) : list DataDoc :=
  match endpoint req, r with
  | POST_api_esp8266_data, Ok resp =>
      match payload resp with
      | PReading d => if is_200 resp then [d] else []
      | _ => []
      end
  | _, _ => []
  end.

(** The event a request of the push variant emits, read off the request
    and its response. *)
Definition announced (req : Request) (r : Result Response) : list Event :=
  match endpoint req, r with
  | POST_api_esp8266_data, Ok resp =>
      match payload resp with
      | PReading d =>
          if is_200 resp
          then [data_update (get_prop "temperature" (body req))
                  (get_prop "fanSpeed" (body req)) (timestamp d)]
          else []
      | _ => []
      end
  | POST_api_config, Ok resp =>
      match payload resp with
      | PConfig (Some _) =>
          if is_200 resp
          then [config_update (get_prop "threshold" (body req))]
          else []
      | _ => []
      end
  | _, _ => []
  end.

(** The requests [reqs] served one after the other by the same process:
    the responses, and the environment the last one leaves. *)
Fixpoint serve (v : Variant) (reqs : list Request) (e : Env)
  : list (Result Response) * Env :=
  match reqs with
  | [] => ([], e)
  | req :: rest =>
      let '(r, e1) := handle v req e in
      let '(rs, e2) := serve v rest e1 in
      (r :: rs, e2)
  end.

Definition all_added (reqs : list Request) (rs : list (Result Response))
  : list DataDoc :=
  flat_map (fun p => added (fst p) (snd p)) (combine reqs rs).

Definition all_announced (reqs : list Request)
  (rs : list (Result Response)) : list Event :=
  flat_map (fun p => announced (fst p) (snd p)) (combine reqs rs).

(** What a route can answer: its own kind of body with 200, its own
    message with 400 (the two [POST] routes only), the message of a caught
    error with 500 (never [GET /]). *)
Definition well_formed_response (ep : Endpoint) (resp : Response) : Prop :=
  (status resp = 200
   /\ match payload resp with
      | PText _ => ep = GET_root
      | PReadings _ => ep = GET_api_data
      | PReading _ => ep = POST_api_esp8266_data
      | PConfig (Some _) =>
          ep = GET_api_config \/ ep = GET_api_esp8266_config
          \/ ep = POST_api_config
      | PConfig None => ep = GET_api_config \/ ep = GET_api_esp8266_config
      | PError _ => False
      end)
  \/ (status resp = 400
      /\ ((ep = POST_api_config
           /\ payload resp = PError (Literal "Threshold value is required"))
          \/ (ep = POST_api_esp8266_data
              /\ payload resp
                 = PError (Literal
                     "Temperature and fan speed values are required"))))
  \/ (status resp = 500
      /\ ep <> GET_root
      /\ exists err, payload resp = PError (MessageOf err)).

(** Oldest first, equal timestamps allowed. *)
Definition ascending (l : list DataDoc) : Prop :=
  StronglySorted (fun a b => timestamp a <= timestamp b) l.

(** Nothing stored is stamped after the present of the clock, and the
    readings lie in the store in the order of their timestamps. *)
Definition chronological (e : Env) : Prop :=
  Forall (fun d => timestamp d <= clock e) (datas (store e))
  /\ Forall (fun c => lastUpdated c <= clock e) (configs (store e))
  /\ ascending (datas (store e)).

(** The most round trips a route makes for one request. *)
Definition round_trip_budget (v : Variant) (ep : Endpoint) : nat :=
  match v, ep with
  | _, GET_root => 0
  | PushVariant, _ => 1
  | ServerlessVariant, (POST_api_config | POST_api_esp8266_data) => 2
  | ServerlessVariant, _ => 4
  end.

(** The text a serverless route logs in front of the error it caught. *)
Definition route_label (ep : Endpoint) : string :=
  match ep with
  | GET_root => ""
  | GET_api_data => "Error fetching data:"
  | GET_api_config => "Error fetching config:"
  | POST_api_config => "Error updating config:"
  | POST_api_esp8266_data => "Error saving data:"
  | GET_api_esp8266_config => "Error fetching ESP8266 config:"
  end.

(** ** Concrete stores, environments and requests of the examples *)

Definition empty_store : Store := {| datas := []; configs := [] |}.

(** A cold process at time 1000 in front of [s], every round trip succeeding
    at once. *)
Definition quiet_env (s : Store) : Env :=
  {| store := s; clock := 1000; pending := []; next_oid := 0;
     isConnected := false; console := []; emitted := []; trace := [] |}.

(** The same, with the round trips to come behaving as [ticks]. *)
Definition env_with (s : Store) (ticks : list Tick) : Env :=
  {| store := s; clock := 1000; pending := ticks; next_oid := 0;
     isConnected := false; console := []; emitted := []; trace := [] |}.

Definition request (ep : Endpoint) (b : Body) : Request :=
  {| endpoint := ep; body := b |}.

Definition num (z : Z) : jsval := JNum (Finite (inject_Z z)).

Definition reading (id : N) (ts : Z) : DataDoc :=
  {| data_id := id; temperature := num 25; fanSpeed := num 60;
     timestamp := ts |}.

Definition stored_config (id : N) (thr : Z) (updated : Z) : ConfigDoc :=
  {| config_id := id; threshold := num thr; lastUpdated := updated |}.

(** A round trip that fails after the server selection timeout. *)
Definition refused : Tick :=
  {| delay := 5000; fault := Some "connect ECONNREFUSED 127.0.0.1:27017" |}.

(** A round trip that succeeds after a millisecond, and one that fails. *)
Definition fine : Tick := {| delay := 1; fault := None |}.
Definition broken : Tick :=
  {| delay := 1; fault := Some "connection pool closed" |}.

(** ** Symbolic execution of the handlers *)

Ltac unfold_handlers :=
  unfold handle, Serverless.handle, Push.handle,
    Serverless.get_root, Serverless.get_api_data, Serverless.get_api_config,
    Serverless.post_api_config, Serverless.post_api_esp8266_data,
    Serverless.get_api_esp8266_config, Serverless.connectToDatabase,
    Serverless.initializeConfig,
    Push.get_root, Push.get_api_data, Push.get_api_config,
    Push.post_api_config, Push.post_api_esp8266_data,
    Push.get_api_esp8266_config, Push.initializeConfig,
    Data_find_sort_limit, Config_countDocuments, Config_findOne,
    Config_create, Config_findOneAndUpdate, Data_new, Data_save, cast_field,
    res_json, res_send, res_status_json, console_log, console_error, io_emit,
    new_ObjectId, Date_now, roundtrip, step_tick, gets, modify,
    try_catch, bind, ret, throw in *.

(** Case analysis on the innermost scrutinee, so that the run of a handler
    unfolds from its first storage call onwards. *)
Ltac break_inner :=
  match goal with
  | |- context [castNumber (JNum ?n)] =>
      change (castNumber (JNum n)) with (Some (JNum n))
  | |- context [match ?x with _ => _ end] =>
      lazymatch x with
      | context [match _ with _ => _ end] => fail
      | _ => first [ is_var x; destruct x | destruct x eqn:? ]
      end
  end.

Ltac run_handler H :=
  revert H; unfold_handlers; simpl;
  repeat match goal with
         | Hprop : get_prop _ _ = _ |- _ => rewrite Hprop
         end;
  simpl;
  repeat (break_inner; simpl);
  intros H; inversion H; subst; clear H; simpl.

Ltac invert_fault_free :=
  unfold fault_free in *; simpl in *;
  repeat match goal with
         | H : Forall _ (_ :: _) |- _ => inversion H; subst; clear H
         end.

Ltac close_goal :=
  simpl;
  solve [ reflexivity | lia | intros; simpl in *; congruence
        | eexists; reflexivity ].

(** Closes the case left by a run: the hypotheses are taken apart, then the
    goal is an impossible case, an equation or a bound, possibly under an
    existential or on one side of a disjunction. *)
Ltac finish :=
  intros; simpl in *; invert_fault_free;
  repeat match goal with
         | H : _ \/ _ |- _ => destruct H
         | H : _ /\ _ |- _ => destruct H
         | H : exists _, _ |- _ => destruct H
         | H : Some _ = Some _ |- _ => inversion H; subst; clear H
         | H : _ :: _ = _ :: _ |- _ => inversion H; subst; clear H
         end;
  try congruence;
  first [ solve [eexists; reflexivity]
        | solve [repeat split; close_goal]
        | solve [eexists; repeat split; close_goal]
        | solve [left; eexists; repeat split; close_goal]
        | solve [right; split; [reflexivity | eexists; reflexivity]]
        | solve [right; eexists; repeat split; close_goal]
        | idtac ].

Ltac check_entries :=
  let op := fresh "op" in
  let message := fresh "message" in
  let Hin := fresh "Hin" in
  intros op message Hin; simpl in Hin;
  repeat (destruct Hin as [Hin|Hin];
          [ try discriminate Hin; try (inversion Hin; subst; clear Hin)
          | ]);
  try contradiction;
  simpl;
  first [ reflexivity
        | split; [reflexivity|];
          split; [simpl; tauto|];
          split; [reflexivity|];
          eexists; eexists; eexists;
          split; [reflexivity|]; split; [tauto | reflexivity] ].

(** A hypothesis denies what the case at hand shows. *)
Ltac refute_negation :=
  try solve [ exfalso;
              match goal with
              | H : ~ _ |- _ => apply H; repeat split; reflexivity
              end ].

(** The round trips made since [tr], read off the trace. *)
Ltac split_trace :=
  first
    [ exists (@nil (StorageOp * option string));
      split; [reflexivity | split; [reflexivity|]]
    | eexists (_ :: nil); split; [reflexivity | split; [reflexivity|]]
    | eexists (_ :: _ :: nil); split; [reflexivity | split; [reflexivity|]]
    | eexists (_ :: _ :: _ :: nil);
      split; [reflexivity | split; [reflexivity|]]
    | eexists (_ :: _ :: _ :: _ :: nil);
      split; [reflexivity | split; [reflexivity|]] ].

(** The round trips made since the trace [tr], as a list to be read off. *)
Ltac since_trace :=
  first
    [ exists (@nil (StorageOp * option string)); split; [reflexivity|]
    | eexists (_ :: nil); split; [reflexivity|]
    | eexists (_ :: _ :: nil); split; [reflexivity|]
    | eexists (_ :: _ :: _ :: nil); split; [reflexivity|]
    | eexists (_ :: _ :: _ :: _ :: nil); split; [reflexivity|] ].

(** Bounds on stored timestamps after the clock has moved on. *)
Ltac chrono :=
  repeat match goal with
         | |- _ /\ _ => split
         | |- Forall _ (_ ++ _) => apply Forall_app; split
         | |- Forall _ (_ :: _) => constructor
         | |- Forall _ [] => constructor
         | H : Forall _ ?l |- Forall _ ?l =>
             solve [eapply Forall_impl; [|exact H]; simpl; intros; lia]
         | |- _ <= _ => simpl; lia
         end;
  try assumption.

(** ** The cast at work *)

Lemma castNumber_examples :
  castNumber (JStr "42") = Some (num 42)
  /\ castNumber (JStr " 25.5 ") = Some (JNum (Finite (51 # 2)))
  /\ castNumber (JStr "0x1F") = Some (num 31)
  /\ castNumber (JStr "") = Some JNull
  /\ castNumber JNull = Some JNull
  /\ castNumber (JBool true) = Some (num 1)
  /\ castNumber (JStr "abc") = None
  /\ castNumber (JStr "12px") = None
  /\ castNumber (JArr [num 1]) = None
  /\ castNumber (JObj []) = None.
Proof. repeat split; vm_compute; reflexivity. Qed.

(** The conversion of a string rounds to the nearest double, ties to even,
    and leaves the range of the doubles at both ends. *)
Lemma StringToNumber_rounds :
  StringToNumber "9007199254740993" = Some (Finite 9007199254740992)
  /\ StringToNumber "9007199254740995" = Some (Finite 9007199254740996)
  /\ StringToNumber "0.1"
     = Some (Finite (3602879701896397 # 36028797018963968))
  /\ StringToNumber "1e1000" = Some PosInfinity
  /\ StringToNumber "-1e1000" = Some NegInfinity
  /\ StringToNumber "1e-400" = Some (Finite 0)
  /\ StringToNumber "-1e-400" = Some NegZero
  /\ StringToNumber "-0" = Some NegZero
  /\ StringToNumber "0x20000000000001" = Some (Finite 9007199254740992).
Proof. repeat split; vm_compute; reflexivity. Qed.

(** ** Order of the readings *)

Lemma insert_desc_perm (d : DataDoc) (l : list DataDoc) :
  Permutation (insert_desc d l) (d :: l).
Proof.
  induction l as [|x rest IH]; simpl.
  - apply Permutation_refl.
  - destruct (timestamp x <=? timestamp d).
    + apply Permutation_refl.
    + apply perm_trans with (x :: d :: rest).
      * apply perm_skip, IH.
      * apply perm_swap.
Qed.

Lemma sort_desc_perm (l : list DataDoc) : Permutation (sort_desc l) l.
Proof.
  induction l as [|d rest IH]; simpl.
  - apply perm_nil.
  - apply perm_trans with (d :: sort_desc rest).
    + apply insert_desc_perm.
    + apply perm_skip, IH.
Qed.

Lemma insert_desc_descending (d : DataDoc) (l : list DataDoc) :
  descending l -> descending (insert_desc d l).
Proof.
  unfold descending.
  induction l as [|x rest IH]; simpl; intros Hl.
  - constructor; constructor.
  - inversion Hl as [|? ? Hrest Hx]; subst.
    destruct (Z.leb_spec (timestamp x) (timestamp d)) as [Hle|Hgt].
    + constructor; [exact Hl|].
      constructor; [exact Hle|].
      eapply Forall_impl; [|exact Hx].
      simpl; intros b Hb; lia.
    + constructor; [apply IH, Hrest|].
      eapply Permutation_Forall.
      * apply Permutation_sym, insert_desc_perm.
      * constructor; [lia|exact Hx].
Qed.

Lemma sort_desc_descending (l : list DataDoc) : descending (sort_desc l).
Proof.
  induction l as [|d rest IH]; simpl.
  - constructor.
  - apply insert_desc_descending, IH.
Qed.

Lemma firstn_In {A} (n : nat) (l : list A) (x : A) :
  In x (firstn n l) -> In x l.
Proof.
  intros Hx.
  rewrite <- (firstn_skipn n l).
  apply in_or_app; left; exact Hx.
Qed.

Lemma firstn_descending (n : nat) (l : list DataDoc) :
  descending l -> descending (firstn n l).
Proof.
  unfold descending.
  revert l; induction n as [|n IH]; intros l Hl; simpl.
  - constructor.
  - destruct l as [|x rest]; [constructor|].
    inversion Hl as [|? ? Hrest Hx]; subst.
    constructor; [apply IH, Hrest|].
    rewrite Forall_forall in *.
    intros b Hb; apply Hx.
    apply (firstn_In n); exact Hb.
Qed.

Lemma firstn_sort_desc_incl (n : nat) (l : list DataDoc) :
  incl (firstn n (sort_desc l)) l.
Proof.
  intros d Hd.
  apply (Permutation_in d (sort_desc_perm l)).
  apply (firstn_In n); exact Hd.
Qed.

Lemma recent_spec (limit : nat) (l : list DataDoc) :
  (List.length (recent limit l) <= limit)%nat
  /\ descending (recent limit l)
  /\ incl (recent limit l) l.
Proof.
  unfold recent; repeat split.
  - apply firstn_le_length.
  - apply firstn_descending, sort_desc_descending.
  - apply firstn_sort_desc_incl.
Qed.

Lemma recent_nil (limit : nat) : recent limit [] = [].
Proof. unfold recent; simpl; apply firstn_nil. Qed.

(** ** C1: the recent readings *)

(** C1, as stated, fails: two readings posted within the same millisecond
    are both stored with the same timestamp, and [GET /api/data] then
    answers them one after the other, so the answer is not strictly
    descending. *)
Lemma C1_counterexample :
  let post := request POST_api_esp8266_data
                [("temperature", num 25); ("fanSpeed", num 60)] in
  let e1 := snd (handle ServerlessVariant post (quiet_env empty_store)) in
  let e2 := snd (handle ServerlessVariant post e1) in
  exists a b,
    fst (handle ServerlessVariant (request GET_api_data []) e2)
    = ok_readings [a; b]
    /\ timestamp a = timestamp b
    /\ ~ strictly_descending [a; b].
Proof.
  simpl.
  eexists; eexists; split; [vm_compute; reflexivity|].
  split; [reflexivity|].
  unfold strictly_descending; intros H.
  inversion H as [|? ? _ Hall]; subst.
  inversion Hall as [|? ? Hlt _]; subst.
  simpl in Hlt; lia.
Qed.

(** C1 (amended): [GET /api/data], in both variants, answers at most 50
    readings of the store, newest first with equal timestamps allowed (the
    order is not strict): the first 50 of the stored readings in descending
    order of timestamp; with no reading stored the answer is the empty
    sequence, not a failure.  The only other answer is 500 with the message
    of the storage error that the connection attempt or the find itself
    met; it does not occur when no round trip fails.  The stored readings
    are left as they were. *)
Theorem C1_recent_readings
  (v : Variant) (req : Request) (e : Env) (r : Result Response) (e' : Env) :
  endpoint req = GET_api_data ->
  handle v req e = (r, e') ->
  let data := recent 50 (datas (store e)) in
  ((exists err, r = Ok (server_error err))
   \/ (r = ok_readings data
       /\ (List.length data <= 50)%nat
       /\ descending data
       /\ incl data (datas (store e))))
  /\ (fault_free e -> r = ok_readings data)
  /\ (fault_free e -> datas (store e) = [] -> r = ok_readings [])
  /\ datas (store e') = datas (store e)
  /\ (forall err, r = Ok (server_error err) ->
      exists op message rest,
        err = StorageError message
        /\ trace e' = (op, Some message) :: rest
        /\ (op = OpConnect \/ op = OpFind)).
Proof.
  intros Hep Hrun.
  destruct req as [ep b]; simpl in Hep; subst ep.
  destruct e as [[ds cs] c p n ic co em tr].
  destruct (recent_spec 50 ds) as (Hlen & Hdesc & Hincl).
  destruct cs as [|c0 cs];
    (destruct v; run_handler Hrun; repeat split;
     try solve [ left; eexists; reflexivity
               | right; repeat split; assumption
               | intros; invert_fault_free; subst;
                 rewrite ?recent_nil; first [reflexivity | congruence]
               | intros err Herr; unfold server_error in Herr;
                 first [ discriminate Herr
                       | inversion Herr; subst;
                         eexists; eexists; eexists;
                         split; [reflexivity|];
                         split; [reflexivity | tauto] ] ]).
Qed.

Lemma C1_recent_readings_witness :
  let e := quiet_env {| datas := [reading 0 900; reading 1 950];
                        configs := [] |} in
  fst (handle ServerlessVariant (request GET_api_data []) e)
  = ok_readings [reading 1 950; reading 0 900].
Proof.
  intros e.
  destruct (C1_recent_readings ServerlessVariant (request GET_api_data []) e
              _ _ eq_refl (surjective_pairing _)) as (_ & H & _).
  rewrite H; [reflexivity | constructor].
Defined.

(** ** C2: a configuration update without a threshold *)

(** C2, as stated, fails in the serverless variant: the route connects to
    the database before it looks at the body, so with the database out of
    reach a body without threshold is answered 500 with the connection
    error, not 400. *)
Lemma C2_counterexample :
  let req := request POST_api_config [] in
  let e := env_with empty_store [refused] in
  get_prop "threshold" (body req) = JUndefined
  /\ fst (handle ServerlessVariant req e)
     = Ok (server_error
             (StorageError "connect ECONNREFUSED 127.0.0.1:27017"))
  /\ fst (handle ServerlessVariant req e)
     <> Ok (bad_request "Threshold value is required").
Proof.
  simpl; repeat split; try reflexivity.
  vm_compute; discriminate.
Qed.

(** C2 (amended): a [POST /api/config] whose body has no threshold never
    changes the stored state and emits nothing.  It is answered 400 with
    [{error: "Threshold value is required"}] whenever the database
    connection is available, which is always so in the push variant.  In
    the serverless variant the connection attempt comes first: when the
    process holds no connection and the attempt fails, the answer is 500
    with the message of the connection error. *)
Theorem C2_missing_threshold
  (v : Variant) (req : Request) (e : Env) (r : Result Response) (e' : Env) :
  endpoint req = POST_api_config ->
  get_prop "threshold" (body req) = JUndefined ->
  handle v req e = (r, e') ->
  store e' = store e
  /\ emitted e' = emitted e
  /\ (connection_available v e ->
      r = Ok (bad_request "Threshold value is required"))
  /\ (r = Ok (bad_request "Threshold value is required")
      \/ (v = ServerlessVariant /\ isConnected e = false
          /\ exists message,
               next_fault e = Some message
               /\ r = Ok (server_error (StorageError message))))
  /\ (forall message,
        v = ServerlessVariant -> isConnected e = false ->
        next_fault e = Some message ->
        r = Ok (server_error (StorageError message))).
Proof.
  intros Hep Hthr Hrun.
  destruct req as [ep b]; simpl in Hep, Hthr; subst ep.
  destruct e as [s c p n ic co em tr].
  unfold connection_available, next_fault.
  destruct v; revert Hrun; unfold_handlers; simpl; rewrite Hthr; simpl;
    repeat (break_inner; simpl);
    intros Hrun; inversion Hrun; subst; clear Hrun; simpl;
    repeat split;
    try solve [ intros; reflexivity
              | left; reflexivity
              | intros [H|H]; discriminate H
              | right; repeat split; eexists; split; reflexivity
              | intros; simpl in *; unfold server_error; congruence ].
Qed.

Lemma C2_missing_threshold_witness :
  let req := request POST_api_config [("limit", num 7)] in
  let e := quiet_env empty_store in
  handle PushVariant req e
  = (Ok (bad_request "Threshold value is required"), e).
Proof.
  intros req e.
  destruct (C2_missing_threshold PushVariant req e _ _ eq_refl eq_refl
              (surjective_pairing _)) as (_ & _ & H & _).
  rewrite (surjective_pairing (handle PushVariant req e)).
  rewrite (H I); reflexivity.
Defined.

(** ** C3: recording a reading *)

Lemma is_undefined_spec (v : jsval) :
  if is_undefined v then v = JUndefined else v <> JUndefined.
Proof. destruct v; simpl; congruence. Qed.

(** C3, as stated, fails on both of its halves.  In the serverless variant
    a body without temperature is answered 500, not 400, when the database
    is out of reach, because the route connects first.  And a body whose
    temperature is present but does not cast to the schema type [Number]
    (here the string "abc") is not persisted: the validation run by [save]
    rejects it and the answer is 500. *)
Lemma C3_counterexample :
  (let req := request POST_api_esp8266_data [("fanSpeed", num 60)] in
   let e := env_with empty_store [refused] in
   get_prop "temperature" (body req) = JUndefined
   /\ fst (handle ServerlessVariant req e)
      = Ok (server_error
              (StorageError "connect ECONNREFUSED 127.0.0.1:27017")))
  /\ (let req := request POST_api_esp8266_data
                   [("temperature", JStr "abc"); ("fanSpeed", num 60)] in
      let e := quiet_env empty_store in
      get_prop "temperature" (body req) <> JUndefined
      /\ get_prop "fanSpeed" (body req) <> JUndefined
      /\ fst (handle ServerlessVariant req e)
         = Ok (server_error (ValidationError [("temperature", JStr "abc")]))
      /\ store (snd (handle ServerlessVariant req e)) = empty_store
      /\ fst (handle PushVariant req e)
         = Ok (server_error (ValidationError [("temperature", JStr "abc")]))
      /\ store (snd (handle PushVariant req e)) = empty_store).
Proof.
  simpl; repeat split; try discriminate; vm_compute; reflexivity.
Qed.

(** C3 (amended): for a [POST /api/esp8266/data], in both variants:
    - when temperature or fanSpeed is absent, nothing is stored, and the
      answer is 400 whenever the database connection is available;
    - when both are present and cast to [Number], either the reading is
      stored with the cast values and a timestamp between call time and
      completion time and is returned with status 200, or a storage round
      trip failed, nothing is stored and the answer is 500 with its
      message; the first is what happens when no round trip fails;
    - when both are present and one does not cast, nothing is stored and
      the answer is 500, with the validation error whenever the connection
      is available;
    - in the serverless variant the connection attempt comes before all
      this: when the process holds no connection and the attempt fails,
      the answer is 500 with the message of the connection error,
      whatever the body, and nothing is stored. *)
Theorem C3_record_reading
  (v : Variant) (req : Request) (e : Env) (r : Result Response) (e' : Env) :
  endpoint req = POST_api_esp8266_data ->
  handle v req e = (r, e') ->
  let temp := get_prop "temperature" (body req) in
  let fan := get_prop "fanSpeed" (body req) in
  (temp = JUndefined \/ fan = JUndefined ->
     store e' = store e
     /\ (connection_available v e ->
         r = Ok (bad_request
                   "Temperature and fan speed values are required")))
  /\ (temp <> JUndefined -> fan <> JUndefined ->
      forall t f, castNumber temp = Some t -> castNumber fan = Some f ->
        ((exists d, reading_stored e e' r d
                    /\ temperature d = t /\ fanSpeed d = f)
         \/ (store e' = store e
             /\ exists message,
                  r = Ok (server_error (StorageError message))))
        /\ (fault_free e ->
            exists d, reading_stored e e' r d
                      /\ temperature d = t /\ fanSpeed d = f))
  /\ (temp <> JUndefined -> fan <> JUndefined ->
      castNumber temp = None \/ castNumber fan = None ->
        store e' = store e
        /\ (exists err, r = Ok (server_error err))
        /\ (connection_available v e ->
            exists invalid,
              r = Ok (server_error (ValidationError invalid))))
  /\ (forall message,
        v = ServerlessVariant -> isConnected e = false ->
        next_fault e = Some message ->
        r = Ok (server_error (StorageError message))
        /\ store e' = store e).
Proof.
  intros Hep Hrun temp fan.
  destruct req as [ep b]; simpl in Hep; subst ep.
  destruct e as [[ds cs] c p n ic co em tr].
  unfold connection_available, next_fault, reading_stored.
  simpl in temp, fan.
  revert Hrun; unfold_handlers; simpl.
  fold temp; fold fan.
  generalize temp fan; clear temp fan; intros temp fan.
  pose proof (is_undefined_spec temp) as Ht.
  pose proof (is_undefined_spec fan) as Hf.
  destruct (is_undefined temp), (is_undefined fan); simpl;
    (destruct v; simpl; repeat (break_inner; simpl);
     intros Hrun; inversion Hrun; subst; clear Hrun; simpl);
    repeat split; finish.
Qed.

Lemma C3_record_reading_witness :
  let req := request POST_api_esp8266_data
               [("temperature", JNum (Finite (51 # 2)));
                ("fanSpeed", num 60)] in
  let e := env_with empty_store
             [ {| delay := 3; fault := None |};
               {| delay := 4; fault := None |} ] in
  exists d,
    reading_stored e (snd (handle ServerlessVariant req e))
      (fst (handle ServerlessVariant req e)) d
    /\ temperature d = JNum (Finite (51 # 2))
    /\ fanSpeed d = num 60.
Proof.
  intros req e.
  destruct (C3_record_reading ServerlessVariant req e _ _ eq_refl
              (surjective_pairing _)) as (_ & H & _).
  assert (Ht : get_prop "temperature" (body req) <> JUndefined)
    by (simpl; discriminate).
  assert (Hf : get_prop "fanSpeed" (body req) <> JUndefined)
    by (simpl; discriminate).
  destruct (H Ht Hf _ _ eq_refl eq_refl) as [_ Hok].
  apply Hok; repeat constructor.
Defined.

(** ** C4: the configuration singleton *)

Lemma handle_singleton (v : Variant) (req : Request) (e : Env) :
  singleton (store e) -> singleton (store (snd (handle v req e))).
Proof.
  unfold singleton.
  destruct (handle v req e) as [r e'] eqn:Hrun.
  destruct req as [ep b].
  destruct e as [[ds cs] c p n ic co em tr]; simpl.
  intros Hs.
  destruct cs as [|c0 [|c1 cs]]; [| |simpl in Hs; lia];
    destruct v, ep; run_handler Hrun; lia.
Qed.

(** [initializeConfig], with its [catch] (serverless) and without (push):
    the effect on the store is the same. *)
Lemma initializeConfig_spec (e : Env) :
  let s1 := store (snd (Serverless.initializeConfig e)) in
  let s2 := store (snd (Push.initializeConfig e)) in
  (singleton (store e) -> singleton s1 /\ singleton s2)
  /\ (configs (store e) <> [] -> s1 = store e /\ s2 = store e)
  /\ (configs (store e) = [] ->
      (s1 = store e
       \/ exists c, default_config c
                    /\ s1 = {| datas := datas (store e); configs := [c] |})
      /\ (s2 = store e
          \/ exists c, default_config c
                       /\ s2 = {| datas := datas (store e);
                                  configs := [c] |}))
  /\ (configs (store e) = [] -> fault_free e ->
      exists c, default_config c /\ clock e <= lastUpdated c
        /\ s1 = {| datas := datas (store e); configs := [c] |}
        /\ s2 = {| datas := datas (store e); configs := [c] |}).
Proof.
  unfold singleton, default_config.
  destruct (Serverless.initializeConfig e) as [r1 e1] eqn:Hrun1.
  destruct (Push.initializeConfig e) as [r2 e2] eqn:Hrun2.
  destruct e as [[ds cs] c p n ic co em tr]; simpl.
  destruct cs as [|c0 [|c1 cs]];
    run_handler Hrun1; run_handler Hrun2; repeat split; finish.
Qed.

(** The upsert of [POST /api/config]. *)
Lemma upsert_spec (thr : jsval) (now : Z) (e : Env) :
  let e' := snd (Config_findOneAndUpdate thr now e) in
  datas (store e') = datas (store e)
  /\ (singleton (store e) -> singleton (store e'))
  /\ (forall c rest, configs (store e) = c :: rest ->
      store e' = store e
      \/ exists c', configs (store e') = c' :: rest
                    /\ config_id c' = config_id c
                    /\ castNumber thr = Some (threshold c')
                    /\ lastUpdated c' = now)
  /\ (configs (store e) = [] ->
      store e' = store e
      \/ exists c', configs (store e') = [c']
                    /\ castNumber thr = Some (threshold c')
                    /\ lastUpdated c' = now)
  /\ (fault_free e -> forall v, castNumber thr = Some v ->
      exists c', fst (Config_findOneAndUpdate thr now e) = Ok c'
                 /\ threshold c' = v /\ lastUpdated c' = now
                 /\ configs (store e') = c' :: tl (configs (store e))).
Proof.
  unfold singleton.
  destruct (Config_findOneAndUpdate thr now e) as [r e'] eqn:Hrun.
  destruct e as [[ds cs] c p n ic co em tr]; simpl.
  destruct cs as [|c0 cs];
    run_handler Hrun; repeat split; finish.
Qed.

(** [initializeConfig] on a store without [Config], case by case. *)
Lemma initializeConfig_exact (e : Env) :
  configs (store e) = [] ->
  let r1 := fst (Serverless.initializeConfig e) in
  let s1 := store (snd (Serverless.initializeConfig e)) in
  let s2 := store (snd (Push.initializeConfig e)) in
  r1 = Ok tt
  /\ (initialization_succeeds e ->
      exists c, default_config c /\ clock e <= lastUpdated c
        /\ s1 = {| datas := datas (store e); configs := [c] |}
        /\ s2 = {| datas := datas (store e); configs := [c] |})
  /\ (~ initialization_succeeds e -> s1 = store e /\ s2 = store e).
Proof.
  unfold initialization_succeeds, fault_at, default_config.
  destruct (Serverless.initializeConfig e) as [r1 e1] eqn:Hrun1.
  destruct (Push.initializeConfig e) as [r2 e2] eqn:Hrun2.
  destruct e as [[ds cs] c p n ic co em tr]; simpl.
  intros ->.
  run_handler Hrun1; run_handler Hrun2; repeat split; intros; simpl in *;
    repeat match goal with
           | H : _ /\ _ |- _ => destruct H
           end;
    try congruence; refute_negation;
    try solve [eexists; repeat split; simpl; solve [reflexivity | lia]].
Qed.

Lemma initializeConfig_twice (e : Env) :
  configs (store e) <> [] \/ initialization_succeeds e ->
  store (snd (Serverless.initializeConfig
                (snd (Serverless.initializeConfig e))))
  = store (snd (Serverless.initializeConfig e))
  /\ store (snd (Push.initializeConfig (snd (Push.initializeConfig e))))
     = store (snd (Push.initializeConfig e)).
Proof.
  intros Hok.
  pose proof (initializeConfig_spec e) as (_ & Hsome & _).
  pose proof (initializeConfig_spec (snd (Serverless.initializeConfig e)))
    as (_ & Hs1 & _).
  pose proof (initializeConfig_spec (snd (Push.initializeConfig e)))
    as (_ & Hs2 & _).
  destruct (configs (store e)) as [|c0 cs] eqn:Hcs.
  - destruct Hok as [Hne|Hok]; [congruence|].
    destruct (initializeConfig_exact e Hcs) as (_ & Hmade & _).
    destruct (Hmade Hok) as (c & _ & _ & H1 & H2).
    split.
    + apply Hs1; rewrite H1; simpl; discriminate.
    + apply Hs2; rewrite H2; simpl; discriminate.
  - assert (Hne : c0 :: cs <> []) by discriminate.
    destruct (Hsome Hne) as [H1 H2].
    split.
    + apply Hs1; rewrite H1, Hcs; discriminate.
    + apply Hs2; rewrite H2, Hcs; discriminate.
Qed.

(** The upsert, when it writes and when it does not. *)
Lemma upsert_exact (thr : jsval) (now : Z) (e : Env) :
  let r := fst (Config_findOneAndUpdate thr now e) in
  let e' := snd (Config_findOneAndUpdate thr now e) in
  (forall v, castNumber thr = Some v -> next_fault e = None ->
     match configs (store e) with
     | c :: rest =>
         let c' := {| config_id := config_id c; threshold := v;
                      lastUpdated := now |} in
         r = Ok c'
         /\ store e' = {| datas := datas (store e); configs := c' :: rest |}
     | [] =>
         exists c', r = Ok c' /\ threshold c' = v /\ lastUpdated c' = now
                    /\ store e' = {| datas := datas (store e);
                                     configs := [c'] |}
     end)
  /\ (castNumber thr = None \/ next_fault e <> None ->
      store e' = store e /\ exists err, r = Throw err).
Proof.
  unfold next_fault.
  destruct (Config_findOneAndUpdate thr now e) as [r e'] eqn:Hrun.
  destruct e as [[ds cs] c p n ic co em tr]; simpl.
  destruct cs as [|c0 cs];
    run_handler Hrun; repeat split; intros; simpl in *;
    repeat match goal with
           | H : _ \/ _ |- _ => destruct H
           | H : Some _ = Some _ |- _ => inversion H; subst; clear H
           end;
    try congruence;
    try solve [eexists; repeat split; reflexivity].
Qed.

(** C4, as stated, fails for [initializeConfig]: the serverless one
    catches its own errors, so when its count fails on a store without
    [Config] it returns normally and has created nothing; and it is not
    idempotent then, since a second run, whose round trips succeed, creates
    the [Config] that the first run did not. *)
Lemma C4_counterexample :
  (let e := env_with empty_store [broken] in
   fst (Serverless.initializeConfig e) = Ok tt
   /\ configs (store (snd (Serverless.initializeConfig e))) = [])
  /\ (let e := env_with empty_store [broken; fine; fine] in
      let once := snd (Serverless.initializeConfig e) in
      let twice := snd (Serverless.initializeConfig once) in
      configs (store once) = []
      /\ store twice <> store once).
Proof.
  repeat split; try (vm_compute; reflexivity).
  vm_compute; discriminate.
Qed.

(** C4 (amended): from a state with at most one [Config] document, requests
    being taken one at a time,
    - every request handler of either variant, [initializeConfig] of either
      variant and the upsert leave at most one;
    - [initializeConfig] does nothing when a document exists; from none,
      the serverless one always returns normally, and it has created
      exactly one document, with threshold 30, when its count and its
      create both succeed, and nothing when one of them fails;
    - run twice it leaves what one run leaves, provided a document exists
      or the count and the create of the first run succeed;
    - the upsert on the existing document, when the value casts and its
      round trip succeeds, writes the cast value and the time into that
      document in place (same identity, nothing added) and returns it;
      when the cast or the round trip fails it throws and leaves the
      store as it was. *)
Theorem C4_config_singleton (e : Env) :
  singleton (store e) ->
  (forall v req, singleton (store (snd (handle v req e))))
  /\ singleton (store (snd (Serverless.initializeConfig e)))
  /\ singleton (store (snd (Push.initializeConfig e)))
  /\ (forall thr now,
        singleton (store (snd (Config_findOneAndUpdate thr now e))))
  /\ (configs (store e) = [] ->
      fst (Serverless.initializeConfig e) = Ok tt
      /\ (initialization_succeeds e ->
          exists c, default_config c
            /\ store (snd (Serverless.initializeConfig e))
               = {| datas := datas (store e); configs := [c] |}
            /\ store (snd (Push.initializeConfig e))
               = {| datas := datas (store e); configs := [c] |})
      /\ (~ initialization_succeeds e ->
          store (snd (Serverless.initializeConfig e)) = store e
          /\ store (snd (Push.initializeConfig e)) = store e))
  /\ (configs (store e) <> [] ->
      store (snd (Serverless.initializeConfig e)) = store e
      /\ store (snd (Push.initializeConfig e)) = store e)
  /\ (configs (store e) <> [] \/ initialization_succeeds e ->
      store (snd (Serverless.initializeConfig
                    (snd (Serverless.initializeConfig e))))
      = store (snd (Serverless.initializeConfig e))
      /\ store (snd (Push.initializeConfig (snd (Push.initializeConfig e))))
         = store (snd (Push.initializeConfig e)))
  /\ (forall thr now c, configs (store e) = [c] ->
      let r := fst (Config_findOneAndUpdate thr now e) in
      let e' := snd (Config_findOneAndUpdate thr now e) in
      (forall v, castNumber thr = Some v -> next_fault e = None ->
         let c' := {| config_id := config_id c; threshold := v;
                      lastUpdated := now |} in
         r = Ok c'
         /\ store e' = {| datas := datas (store e); configs := [c'] |})
      /\ (castNumber thr = None \/ next_fault e <> None ->
          store e' = store e /\ exists err, r = Throw err)).
Proof.
  intros Hs.
  pose proof (initializeConfig_spec e) as (Hinv & Hsome & _).
  destruct (Hinv Hs) as [Hs1 Hs2].
  split; [intros v req; apply handle_singleton, Hs|].
  split; [exact Hs1|].
  split; [exact Hs2|].
  split; [intros thr now; apply (upsert_spec thr now e), Hs|].
  split.
  { intros Hcs.
    destruct (initializeConfig_exact e Hcs) as (Hr & Hmade & Hnot).
    split; [exact Hr|].
    split; [|exact Hnot].
    intros Hok.
    destruct (Hmade Hok) as (c & Hc & _ & H1 & H2).
    exists c; repeat split; assumption. }
  split; [exact Hsome|].
  split; [apply initializeConfig_twice|].
  intros thr now c Hc r e'.
  destruct (upsert_exact thr now e) as (Hwrite & Hfail).
  split; [|exact Hfail].
  intros v Hv Hnf c'.
  specialize (Hwrite v Hv Hnf).
  rewrite Hc in Hwrite; exact Hwrite.
Qed.

Lemma C4_config_singleton_witness :
  let e := quiet_env {| datas := []; configs := [stored_config 7 30 500] |} in
  store (snd (handle ServerlessVariant
                (request POST_api_config [("threshold", num 42)]) e))
  = {| datas := []; configs := [stored_config 7 42 1000] |}
  /\ singleton (store (snd (handle ServerlessVariant
                              (request POST_api_config
                                 [("threshold", num 42)]) e))).
Proof.
  intros e.
  assert (Hs : singleton (store e)) by (unfold singleton; simpl; lia).
  destruct (C4_config_singleton e Hs) as (H & _).
  split; [reflexivity | apply H].
Defined.

(** ** C5: the threshold through the configuration store *)

(** C5: in both variants and from every state, a [POST /api/config] with a
    number [n] as threshold (42, say) followed by a [GET /api/config]: when
    both are answered 200, the second answer is a [Config] with threshold
    [n] and a [lastUpdated] not before the time of the first call (and not
    after its completion); and both are answered 200, with that same
    document, when no storage round trip fails. *)
Theorem C5_threshold_round_trip
  (v : Variant) (n : jsnum) (post get : Request) (e e1 e2 : Env)
  (r1 r2 : Result Response) :
  endpoint post = POST_api_config ->
  get_prop "threshold" (body post) = JNum n ->
  endpoint get = GET_api_config ->
  handle v post e = (r1, e1) ->
  handle v get e1 = (r2, e2) ->
  (succeeded r1 -> succeeded r2 ->
   exists c, r2 = ok_config c /\ threshold c = JNum n
             /\ clock e <= lastUpdated c <= clock e1)
  /\ (fault_free e ->
      exists c, r1 = ok_config c /\ r2 = ok_config c
                /\ threshold c = JNum n
                /\ clock e <= lastUpdated c <= clock e1).
Proof.
  intros Hp Hthr Hg Hrun1 Hrun2.
  destruct post as [ep1 b1], get as [ep2 b2]; simpl in *; subst ep1 ep2.
  destruct e as [[ds cs] c p n0 ic co em tr].
  unfold succeeded, ok_config.
  destruct cs as [|c0 cs]; destruct v;
    run_handler Hrun1; run_handler Hrun2; split; finish.
Qed.

Lemma C5_threshold_round_trip_witness :
  let post := request POST_api_config [("threshold", num 42)] in
  let get := request GET_api_config [] in
  let e := env_with {| datas := []; configs := [stored_config 7 30 500] |}
             [ {| delay := 2; fault := None |};
               {| delay := 3; fault := None |} ] in
  let e1 := snd (handle ServerlessVariant post e) in
  exists c,
    fst (handle ServerlessVariant get e1) = ok_config c
    /\ threshold c = num 42
    /\ clock e <= lastUpdated c.
Proof.
  intros post get e e1.
  destruct (C5_threshold_round_trip ServerlessVariant (Finite (inject_Z 42))
              post get e e1 _ _ _ eq_refl eq_refl eq_refl
              (surjective_pairing _) (surjective_pairing _)) as [_ H].
  destruct H as (c & _ & H2 & Hthr & Hclock & _); [repeat constructor|].
  exists c; repeat split; assumption.
Defined.

(** ** C6: reading the configuration *)

(** C6, as stated, fails.  The handler of the push variant does not ensure
    anything: on a store without [Config] it answers 200 with [null].  The
    serverless handler does call [initializeConfig], which catches and logs
    its own errors: when its count fails and the lookup that follows
    succeeds, the answer is again 200 with [null]. *)
Lemma C6_counterexample :
  (let e := quiet_env empty_store in
   fst (handle PushVariant (request GET_api_config []) e) = ok_null
   /\ configs (store (snd (handle PushVariant
                             (request GET_api_config []) e))) = [])
  /\ (let e := env_with empty_store [fine; broken] in
      fst (handle ServerlessVariant (request GET_api_config []) e)
      = ok_null).
Proof.
  repeat split; vm_compute; reflexivity.
Qed.

(** C6 (amended): [GET /api/config] answers either 500 with the message of
    an error, or 200 with the first [Config] of the store as the request
    leaves it ([null] when there is none).  In the serverless variant, when
    no storage round trip fails, the handler first ensures that a [Config]
    exists and the answer is a [Config] object, never [null]: the default
    one when the store had none, the stored one otherwise.  The handler of
    the push variant ensures nothing and leaves the store as it is.  In
    both, [null] is answered only from a store without [Config]. *)
Theorem C6_get_config
  (v : Variant) (req : Request) (e : Env) (r : Result Response) (e' : Env) :
  endpoint req = GET_api_config ->
  handle v req e = (r, e') ->
  ((exists err, r = Ok (server_error err))
   \/ r = Ok {| status := 200;
                payload := PConfig (hd_error (configs (store e'))) |})
  /\ (v = ServerlessVariant -> fault_free e ->
      exists c, r = ok_config c
                /\ hd_error (configs (store e')) = Some c
                /\ (configs (store e) = [] -> default_config c)
                /\ (configs (store e) <> [] ->
                    hd_error (configs (store e)) = Some c))
  /\ (v = PushVariant ->
      store e' = store e
      /\ (fault_free e ->
          r = Ok {| status := 200;
                    payload := PConfig (hd_error (configs (store e))) |}))
  /\ (r = ok_null -> configs (store e) = []).
Proof.
  intros Hep Hrun.
  destruct req as [ep b]; simpl in Hep; subst ep.
  destruct e as [[ds cs] c p n ic co em tr].
  unfold ok_config, ok_null, default_config.
  destruct cs as [|c0 cs]; destruct v;
    run_handler Hrun; repeat split; finish.
Qed.

Lemma C6_get_config_witness :
  let e := env_with empty_store [fine; fine; fine; fine] in
  exists c,
    fst (handle ServerlessVariant (request GET_api_config []) e)
    = ok_config c
    /\ default_config c.
Proof.
  intros e.
  destruct (C6_get_config ServerlessVariant (request GET_api_config []) e
              _ _ eq_refl (surjective_pairing _)) as (_ & H & _).
  destruct (H eq_refl) as (c & Hr & _ & Hd & _); [repeat constructor|].
  exists c; split; [exact Hr | apply Hd; reflexivity].
Defined.

(** ** C7: storage failures *)

(** C7, as stated, fails in the serverless variant: a storage failure met
    inside [initializeConfig] is caught there and logged, and the request
    is answered as if nothing had happened.  Here the count of
    [GET /api/data] fails and the answer is 200 with the (empty) list of
    readings. *)
Lemma C7_counterexample :
  let e := env_with empty_store [fine; broken] in
  let req := request GET_api_data [] in
  fst (handle ServerlessVariant req e) = ok_readings []
  /\ In (OpCountDocuments, Some "connection pool closed")
        (trace (snd (handle ServerlessVariant req e)))
  /\ fst (handle ServerlessVariant req e)
     <> Ok (server_error (StorageError "connection pool closed")).
Proof.
  repeat split; try (vm_compute; reflexivity).
  - vm_compute; tauto.
  - vm_compute; discriminate.
Qed.

(** C7 (amended): every request is answered (no handler throws), and for
    every storage round trip that failed while it was handled: if it is
    one that the handler makes itself (connect, find, findOne,
    findOneAndUpdate, save), the answer is 500 with [{error: message}],
    the message being that of the storage error; if it is the count or the
    create of [initializeConfig], which only the serverless read routes
    run, the error is logged on the console and not surfaced: the store is
    left as it was, the handler goes on to its query, and the answer is
    what that query finds in the unchanged store (with status 200), or 500
    with the message of the query's own failure. *)
Theorem C7_storage_failures
  (v : Variant) (req : Request) (e : Env) (r : Result Response) (e' : Env) :
  handle v req e = (r, e') ->
  exists resp new,
    r = Ok resp
    /\ trace e' = (new ++ trace e)%list
    /\ forall op message,
         In (op, Some message) new ->
         failure_outcome v (endpoint req) op message resp new e e'.
Proof.
  intros Hrun.
  destruct req as [ep b].
  destruct e as [[ds cs] c p n ic co em tr].
  unfold failure_outcome.
  destruct cs as [|c0 cs]; destruct v, ep; run_handler Hrun;
    (eexists; split_trace; check_entries).
Qed.

Lemma C7_storage_failures_witness :
  let e := env_with empty_store [fine; fine; broken] in
  let req := request GET_api_config [] in
  exists resp new,
    fst (handle ServerlessVariant req e) = Ok resp
    /\ trace (snd (handle ServerlessVariant req e)) = (new ++ trace e)%list
    /\ forall op message,
         In (op, Some message) new ->
         failure_outcome ServerlessVariant GET_api_config op message resp
           new e (snd (handle ServerlessVariant req e)).
Proof.
  intros e req.
  exact (C7_storage_failures ServerlessVariant req e _ _
           (surjective_pairing _)).
Defined.

(** ** C8: the two variants side by side *)

(** C8, as stated, fails: the read routes of the serverless variant run
    [initializeConfig], those of the push variant do not (it runs it once at
    start-up).  On a store without [Config], [GET /api/config] is answered
    with the freshly created default by the one and with [null] by the
    other, and only the first leaves a [Config] behind.  The liveness text
    of [GET /] differs as well. *)
Lemma C8_counterexample :
  (let e := quiet_env empty_store in
   let req := request GET_api_config [] in
   fst (handle ServerlessVariant req e) <> fst (handle PushVariant req e)
   /\ store (snd (handle ServerlessVariant req e))
      <> store (snd (handle PushVariant req e)))
  /\ (forall e,
        fst (handle ServerlessVariant (request GET_root []) e)
        <> fst (handle PushVariant (request GET_root []) e)).
Proof.
  split; [split|intros e]; vm_compute; discriminate.
Qed.

(** C8 (amended): for every request other than [GET /], the two variants
    give the same response and the same resulting store
    - from every store that holds a [Config], when no round trip is
      delayed or fails;
    - for the read routes, from every store that holds a [Config], when no
      round trip fails;
    - for the two [POST] routes, from every store and whatever the round
      trips do, once the serverless process holds its connection.
    From a store without [Config], when no round trip fails, the read
    routes leave different stores: the serverless one has created the
    default [Config], the push one has changed nothing; the two config
    routes also differ in their answers (that [Config] against [null]),
    while [GET /api/data] answers alike.  The serverless variant never
    emits on the push channel. *)
Theorem C8_variants (req : Request) (e : Env) :
  endpoint req <> GET_root ->
  (configs (store e) <> [] -> pending e = [] -> same_outcome req e)
  /\ (is_post (endpoint req) = false -> configs (store e) <> [] ->
      fault_free e -> same_outcome req e)
  /\ (is_post (endpoint req) = true -> isConnected e = true ->
      same_outcome req e)
  /\ emitted (snd (handle ServerlessVariant req e)) = emitted e
  /\ (is_post (endpoint req) = false -> configs (store e) = [] ->
      fault_free e ->
      store (snd (handle PushVariant req e)) = store e
      /\ exists c,
           default_config c
           /\ store (snd (handle ServerlessVariant req e))
              = {| datas := datas (store e); configs := [c] |}
           /\ (endpoint req = GET_api_data ->
               fst (handle ServerlessVariant req e)
               = fst (handle PushVariant req e))
           /\ (endpoint req <> GET_api_data ->
               fst (handle ServerlessVariant req e) = ok_config c
               /\ fst (handle PushVariant req e) = ok_null)).
Proof.
  intros Hep.
  unfold same_outcome, default_config, ok_config, ok_null.
  destruct (handle ServerlessVariant req e) as [r1 e1] eqn:Hrun1.
  destruct (handle PushVariant req e) as [r2 e2] eqn:Hrun2.
  destruct req as [ep b].
  destruct e as [[ds cs] c p n ic co em tr]; simpl in *.
  destruct ep; try congruence;
    destruct cs as [|c0 cs];
    run_handler Hrun1; run_handler Hrun2; repeat split; finish.
Qed.

Lemma C8_variants_witness :
  let e := quiet_env {| datas := [reading 0 900];
                        configs := [stored_config 7 30 500] |} in
  let req := request POST_api_esp8266_data
               [("temperature", num 25); ("fanSpeed", num 60)] in
  same_outcome req e.
Proof.
  intros e req.
  assert (Hep : endpoint req <> GET_root) by (simpl; discriminate).
  destruct (C8_variants req e Hep) as (H & _).
  apply H; [simpl; discriminate | reflexivity].
Defined.

(** ** C9: a threshold that is present *)

(** C9, as stated, fails on its second half: a threshold that is present but
    does not cast to the schema type [Number] (here the string "abc") is
    not stored.  The upsert throws a cast error, the answer is 500 and the
    stored [Config] keeps its threshold. *)
Lemma C9_counterexample :
  let req := request POST_api_config [("threshold", JStr "abc")] in
  let e := quiet_env {| datas := [];
                        configs := [stored_config 7 30 500] |} in
  get_prop "threshold" (body req) <> JUndefined
  /\ fst (handle ServerlessVariant req e)
     = Ok (server_error (CastError "threshold" (JStr "abc")))
  /\ store (snd (handle ServerlessVariant req e)) = store e
  /\ fst (handle PushVariant req e)
     = Ok (server_error (CastError "threshold" (JStr "abc")))
  /\ store (snd (handle PushVariant req e)) = store e.
Proof.
  simpl; repeat split; try discriminate; vm_compute; reflexivity.
Qed.

(** C9 (amended): only [undefined] counts as an absent threshold.  For a
    [POST /api/config] whose threshold is anything else ([null], a string,
    ...), in both variants:
    - the answer is never 400;
    - when the value casts to [Number] (numbers and [null] as they are, a
      numeric string as the double it reads as, a boolean as 0 or 1),
      either the cast value is stored as the threshold of the first
      [Config] and the updated [Config] is returned with status 200, or a
      storage round trip failed, nothing is stored and the answer is 500;
      the first is what happens when no round trip fails;
    - when it does not cast (a non-numeric string, an array, an object),
      nothing is stored and the answer is 500, with the cast error
      whenever the connection is available;
    - in the serverless variant, when the process holds no connection and
      the connection attempt fails, the answer is 500 with the message of
      the connection error and nothing is stored. *)
Theorem C9_present_threshold
  (v : Variant) (req : Request) (e : Env) (r : Result Response) (e' : Env) :
  endpoint req = POST_api_config ->
  get_prop "threshold" (body req) <> JUndefined ->
  handle v req e = (r, e') ->
  let thr := get_prop "threshold" (body req) in
  (forall p, r <> Ok {| status := 400; payload := p |})
  /\ (forall thr', castNumber thr = Some thr' ->
      ((exists c, r = ok_config c /\ threshold c = thr'
                  /\ hd_error (configs (store e')) = Some c
                  /\ clock e <= lastUpdated c <= clock e')
       \/ (store e' = store e
           /\ exists message,
                r = Ok (server_error (StorageError message))))
      /\ (fault_free e ->
          exists c, r = ok_config c /\ threshold c = thr'
                    /\ hd_error (configs (store e')) = Some c))
  /\ (castNumber thr = None ->
      store e' = store e
      /\ (exists err, r = Ok (server_error err))
      /\ (connection_available v e ->
          r = Ok (server_error (CastError "threshold" thr))))
  /\ (forall message,
        v = ServerlessVariant -> isConnected e = false ->
        next_fault e = Some message ->
        r = Ok (server_error (StorageError message))
        /\ store e' = store e).
Proof.
  intros Hep Hthr Hrun thr.
  destruct req as [ep b]; simpl in Hep; subst ep.
  destruct e as [[ds cs] c p n ic co em tr].
  unfold connection_available, next_fault, ok_config.
  simpl in thr, Hthr.
  revert Hrun; unfold_handlers; simpl.
  fold thr; fold thr in Hthr.
  generalize thr Hthr; clear thr Hthr; intros thr Hthr.
  pose proof (is_undefined_spec thr) as Hu.
  destruct (is_undefined thr); [congruence|]; simpl.
  destruct cs as [|c0 cs];
    (destruct v; simpl; repeat (break_inner; simpl);
     intros Hrun; inversion Hrun; subst; clear Hrun; simpl);
    repeat split; finish.
Qed.

Lemma C9_present_threshold_witness :
  let req := request POST_api_config [("threshold", JStr "42")] in
  let e := quiet_env {| datas := [];
                        configs := [stored_config 7 30 500] |} in
  exists c,
    fst (handle PushVariant req e) = ok_config c
    /\ threshold c = num 42
    /\ hd_error (configs (store (snd (handle PushVariant req e)))) = Some c.
Proof.
  intros req e.
  assert (Hthr : get_prop "threshold" (body req) <> JUndefined)
    by (simpl; discriminate).
  destruct (C9_present_threshold PushVariant req e _ _ eq_refl Hthr
              (surjective_pairing _)) as (_ & H & _).
  destruct (H (num 42)) as [_ Hok]; [vm_compute; reflexivity|].
  apply Hok; constructor.
Defined.

(** ** C10: the read routes of the serverless variant write *)

(** C10, as stated, fails: a read route does not always create the
    missing [Config].  When the count inside [initializeConfig] fails, the
    error is caught and logged there, the route goes on and answers 200,
    and the store is left without [Config]. *)
Lemma C10_counterexample :
  let e := env_with {| datas := [reading 0 900]; configs := [] |}
             [fine; broken] in
  let get ep := handle ServerlessVariant (request ep []) e in
  (succeeded (fst (get GET_api_data))
   /\ store (snd (get GET_api_data)) = store e)
  /\ (succeeded (fst (get GET_api_config))
      /\ store (snd (get GET_api_config)) = store e)
  /\ (succeeded (fst (get GET_api_esp8266_config))
      /\ store (snd (get GET_api_esp8266_config)) = store e).
Proof.
  repeat split; try (eexists; vm_compute; reflexivity);
    vm_compute; reflexivity.
Qed.

(** C10 (amended): in the serverless variant, [GET /api/data],
    [GET /api/config] and [GET /api/esp8266/config] never touch the stored
    readings and leave a store that holds a [Config] exactly as it is.
    From a store without [Config] the only change they can make is to add
    one [Config] with threshold 30, and they make it exactly when the
    connection (if it has to be made), the count and the create succeed;
    when one of these fails nothing is created, also when the request is
    then answered 200.  When no round trip fails at all the [Config] is
    created before the answer, which is 200, and the store after the
    request differs from the store before. *)
Theorem C10_reads_initialize
  (req : Request) (e : Env) (r : Result Response) (e' : Env) :
  is_read (endpoint req) = true ->
  handle ServerlessVariant req e = (r, e') ->
  datas (store e') = datas (store e)
  /\ (configs (store e) <> [] -> store e' = store e)
  /\ (configs (store e) = [] ->
      store e' = store e
      \/ exists c, default_config c
                   /\ store e' = {| datas := datas (store e);
                                    configs := [c] |})
  /\ (configs (store e) = [] -> fault_free e ->
      exists c, default_config c
                /\ clock e <= lastUpdated c <= clock e'
                /\ store e' = {| datas := datas (store e); configs := [c] |}
                /\ store e' <> store e
                /\ succeeded r)
  /\ (configs (store e) = [] -> route_initializes e ->
      exists c, default_config c
                /\ clock e <= lastUpdated c <= clock e'
                /\ store e' = {| datas := datas (store e); configs := [c] |})
  /\ (configs (store e) = [] -> ~ route_initializes e -> store e' = store e).
Proof.
  intros Hep Hrun.
  destruct req as [ep b]; simpl in Hep.
  destruct e as [[ds cs] c p n ic co em tr].
  unfold default_config, succeeded, route_initializes, fault_at.
  destruct ep; try discriminate Hep;
    destruct cs as [|c0 cs]; run_handler Hrun; repeat split; finish;
    refute_negation.
Qed.

Lemma C10_reads_initialize_witness :
  let e := env_with {| datas := [reading 0 900]; configs := [] |}
             [fine; fine; fine; fine] in
  let req := request GET_api_data [] in
  exists c,
    default_config c
    /\ store (snd (handle ServerlessVariant req e))
       = {| datas := [reading 0 900]; configs := [c] |}.
Proof.
  intros e req.
  destruct (C10_reads_initialize req e _ _ eq_refl (surjective_pairing _))
    as (_ & _ & _ & H & _).
  destruct (H eq_refl) as (c & Hc & _ & Hs & _); [repeat constructor|].
  exists c; split; [exact Hc | exact Hs].
Defined.

(** * Further properties of the handlers *)

(** ** The database connection of the serverless variant *)

(** X1: [connectToDatabase] caches the connection in [isConnected].  A
    process that holds the connection keeps it through every request and
    never makes a connect round trip again.  A process that does not makes
    exactly one, as the first round trip of every request but [GET /], and
    holds the connection afterwards exactly when that round trip
    succeeded.  [GET /] leaves the whole environment as it is. *)
Theorem connection_is_cached (req : Request) (e : Env) :
  let e' := snd (handle ServerlessVariant req e) in
  exists new,
    trace e' = (new ++ trace e)%list
    /\ (isConnected e = true ->
        isConnected e' = true
        /\ forall outcome, ~ In (OpConnect, outcome) new)
    /\ (isConnected e = false -> endpoint req <> GET_root ->
        hd_error (rev new) = Some (OpConnect, next_fault e)
        /\ isConnected e' = is_none (next_fault e)
        /\ forall outcome, ~ In (OpConnect, outcome) (removelast new))
    /\ (endpoint req = GET_root -> e' = e).
Proof.
  destruct (handle ServerlessVariant req e) as [r e'] eqn:Hrun.
  destruct req as [ep b].
  destruct e as [[ds cs] c p n ic co em tr]; simpl.
  unfold next_fault; simpl.
  destruct ep; run_handler Hrun; since_trace; repeat split; intros;
    simpl in *; try congruence; try (intuition congruence).
Qed.

(** X2: when a serverless process without connection cannot reach the
    database, every route but [GET /] answers 500 with the message of the
    connection error, whatever the body; nothing is stored or emitted, no
    other round trip is made, and the process stays without connection, so
    that the next request tries again. *)
Theorem cold_connect_failure
  (req : Request) (e : Env) (message : string) :
  endpoint req <> GET_root ->
  isConnected e = false ->
  next_fault e = Some message ->
  let e' := snd (handle ServerlessVariant req e) in
  fst (handle ServerlessVariant req e)
  = Ok (server_error (StorageError message))
  /\ store e' = store e
  /\ isConnected e' = false
  /\ trace e' = (OpConnect, Some message) :: trace e
  /\ pending e' = tl (pending e)
  /\ emitted e' = emitted e.
Proof.
  intros Hep Hic Hnf.
  destruct (handle ServerlessVariant req e) as [r e'] eqn:Hrun.
  destruct req as [ep b].
  destruct e as [[ds cs] c p n ic co em tr]; simpl in *.
  unfold next_fault in Hnf; simpl in Hnf; subst ic.
  destruct p as [|t p]; [discriminate|].
  destruct ep; try congruence;
    (revert Hrun; unfold_handlers; simpl; rewrite Hnf; simpl;
     intros Hrun; inversion Hrun; subst; clear Hrun; simpl;
     repeat split; reflexivity).
Qed.

Lemma cold_connect_failure_witness :
  let e := env_with {| datas := [reading 0 900]; configs := [] |} [refused] in
  let req := request POST_api_esp8266_data
               [("temperature", num 25); ("fanSpeed", num 60)] in
  fst (handle ServerlessVariant req e)
  = Ok (server_error
          (StorageError "connect ECONNREFUSED 127.0.0.1:27017"))
  /\ isConnected (snd (handle ServerlessVariant req e)) = false.
Proof.
  intros e req.
  assert (Hep : endpoint req <> GET_root) by (simpl; discriminate).
  destruct (cold_connect_failure req e _ Hep eq_refl eq_refl)
    as (Hr & _ & Hic & _).
  split; [exact Hr | exact Hic].
Defined.

(** X3: a request makes a bounded number of round trips: none for
    [GET /], at most one in the push variant, at most two for a serverless
    [POST] and four for a serverless [GET] (connect, count, create, find).
    It consumes exactly as many of the round trips to come.  A request
    answered 400 reached the database at most to connect. *)
Theorem round_trips_are_bounded (v : Variant) (req : Request) (e : Env) :
  let r := fst (handle v req e) in
  let e' := snd (handle v req e) in
  exists new,
    trace e' = (new ++ trace e)%list
    /\ (List.length new <= round_trip_budget v (endpoint req))%nat
    /\ pending e' = skipn (List.length new) (pending e)
    /\ (forall p, r = Ok {| status := 400; payload := p |} ->
        match v with
        | PushVariant => new = []
        | ServerlessVariant => new = [] \/ new = [(OpConnect, None)]
        end).
Proof.
  destruct (handle v req e) as [r e'] eqn:Hrun.
  destruct req as [ep b].
  destruct e as [[ds cs] c p n ic co em tr]; simpl.
  destruct v, ep; run_handler Hrun; since_trace;
    repeat split; simpl; try lia; intros;
    try discriminate; tauto.
Qed.

(** ** The shape of the responses *)

(** X4: every request is answered, and the answer fits its route: status
    200 with the route's own kind of body ([POST /api/config] never answers
    [null]), status 400 with the route's own message and only from the two
    [POST] routes, or status 500 with the message of a caught error and
    never from [GET /]. *)
Theorem responses_well_formed (v : Variant) (req : Request) (e : Env) :
  exists resp,
    fst (handle v req e) = Ok resp
    /\ well_formed_response (endpoint req) resp.
Proof.
  destruct (handle v req e) as [r e'] eqn:Hrun.
  destruct req as [ep b].
  destruct e as [[ds cs] c p n ic co em tr]; simpl.
  destruct cs as [|c0 cs]; destruct v, ep; run_handler Hrun;
    (eexists; split; [reflexivity|]; unfold well_formed_response; simpl;
     first [ left; split; [reflexivity | tauto]
           | right; left; split; [reflexivity | tauto]
           | right; right; split; [reflexivity|];
             split; [discriminate | eexists; reflexivity] ]).
Qed.

(** X5: [GET /api/esp8266/config] is [GET /api/config] under another
    path: from the same environment both give the same response and leave
    the same store, clock, connection and round trips made; in the push
    variant they leave the same environment altogether (in the serverless
    one the text logged with a caught error differs). *)
Theorem device_config_route_is_an_alias
  (v : Variant) (req1 req2 : Request) (e : Env) :
  endpoint req1 = GET_api_esp8266_config ->
  endpoint req2 = GET_api_config ->
  let e1 := snd (handle v req1 e) in
  let e2 := snd (handle v req2 e) in
  fst (handle v req1 e) = fst (handle v req2 e)
  /\ store e1 = store e2
  /\ clock e1 = clock e2
  /\ pending e1 = pending e2
  /\ isConnected e1 = isConnected e2
  /\ trace e1 = trace e2
  /\ (v = PushVariant -> e1 = e2).
Proof.
  intros H1 H2.
  destruct (handle v req1 e) as [r1 e1] eqn:Hrun1.
  destruct (handle v req2 e) as [r2 e2] eqn:Hrun2.
  destruct req1 as [ep1 b1], req2 as [ep2 b2]; simpl in *; subst.
  destruct e as [[ds cs] c p n ic co em tr].
  destruct cs as [|c0 cs]; destruct v;
    run_handler Hrun1; run_handler Hrun2; repeat split;
    try (intros; congruence).
Qed.

Lemma device_config_route_is_an_alias_witness :
  let e := env_with empty_store [fine; broken; fine] in
  fst (handle ServerlessVariant (request GET_api_esp8266_config []) e)
  = fst (handle ServerlessVariant (request GET_api_config []) e).
Proof.
  intros e.
  destruct (device_config_route_is_an_alias ServerlessVariant
              (request GET_api_esp8266_config [])
              (request GET_api_config []) e eq_refl eq_refl) as (H & _).
  exact H.
Defined.

(** ** What the requests do to the store *)

(** X6: an existing [Config] is never removed, replaced or moved: after
    any request of either variant the collection starts with a document of
    the same identity, followed by the same other documents.  Only
    [POST /api/config] changes that first document, and only when it
    answers 200, with the document it has written. *)
Theorem config_keeps_its_identity
  (v : Variant) (req : Request) (e : Env) (c : ConfigDoc)
  (rest : list ConfigDoc) :
  configs (store e) = c :: rest ->
  let e' := snd (handle v req e) in
  exists c',
    configs (store e') = c' :: rest
    /\ config_id c' = config_id c
    /\ (endpoint req <> POST_api_config -> c' = c)
    /\ (c' <> c -> fst (handle v req e) = ok_config c').
Proof.
  intros Hcs.
  destruct (handle v req e) as [r e'] eqn:Hrun.
  destruct req as [ep b].
  destruct e as [[ds cs] c0 p n ic co em tr]; simpl in *; subst cs.
  unfold ok_config.
  destruct v, ep; run_handler Hrun;
    (eexists; split; [reflexivity|]; repeat split; intros; simpl in *;
     congruence).
Qed.

Lemma config_keeps_its_identity_witness :
  let e := quiet_env {| datas := [];
                        configs := [stored_config 7 30 500;
                                    stored_config 8 99 600] |} in
  let req := request POST_api_config [("threshold", num 42)] in
  exists c',
    configs (store (snd (handle PushVariant req e)))
    = [c'; stored_config 8 99 600]
    /\ config_id c' = 7%N.
Proof.
  intros e req.
  destruct (config_keeps_its_identity PushVariant req e _ _ eq_refl)
    as (c' & Hc & Hid & _).
  exists c'; split; [exact Hc | exact Hid].
Defined.

Lemma handle_added (v : Variant) (req : Request) (e : Env) :
  datas (store (snd (handle v req e)))
  = (datas (store e) ++ added req (fst (handle v req e)))%list.
Proof.
  destruct (handle v req e) as [r e'] eqn:Hrun.
  destruct req as [ep b].
  destruct e as [[ds cs] c p n ic co em tr]; simpl.
  destruct v, ep; run_handler Hrun;
    unfold added, is_200; simpl; rewrite ?app_nil_r; reflexivity.
Qed.

Lemma handle_announced (req : Request) (e : Env) :
  emitted (snd (handle PushVariant req e))
  = (announced req (fst (handle PushVariant req e)) ++ emitted e)%list.
Proof.
  destruct (handle PushVariant req e) as [r e'] eqn:Hrun.
  destruct req as [ep b].
  destruct e as [[ds cs] c p n ic co em tr]; simpl.
  destruct ep; run_handler Hrun; unfold announced, is_200; reflexivity.
Qed.

Lemma serverless_emits_nothing (req : Request) (e : Env) :
  emitted (snd (handle ServerlessVariant req e)) = emitted e.
Proof.
  destruct (handle ServerlessVariant req e) as [r e'] eqn:Hrun.
  destruct req as [ep b].
  destruct e as [[ds cs] c p n ic co em tr]; simpl.
  destruct ep; run_handler Hrun; reflexivity.
Qed.

Lemma rev_announced (req : Request) (r : Result Response) :
  rev (announced req r) = announced req r.
Proof.
  unfold announced.
  destruct (endpoint req), r as [resp|err]; try reflexivity;
    destruct (payload resp) as [| | | |[c|]]; try reflexivity;
    destruct (is_200 resp); reflexivity.
Qed.

(** X7: over any sequence of requests served one after the other, no
    reading is lost, changed or invented: the stored readings at the end
    are those of the start followed by the readings that the
    [POST /api/esp8266/data] answered with 200, in the order of the
    requests.  In the push variant the events emitted are, latest first,
    one per [POST] answered 200 and no other; the serverless variant emits
    nothing. *)
Theorem serve_accounting (v : Variant) (reqs : list Request) (e : Env) :
  let rs := fst (serve v reqs e) in
  let e' := snd (serve v reqs e) in
  List.length rs = List.length reqs
  /\ datas (store e') = (datas (store e) ++ all_added reqs rs)%list
  /\ (v = PushVariant ->
      emitted e' = (rev (all_announced reqs rs) ++ emitted e)%list)
  /\ (v = ServerlessVariant -> emitted e' = emitted e).
Proof.
  revert e; induction reqs as [|req rest IH]; intros e; simpl.
  - repeat split; try reflexivity.
    symmetry; apply app_nil_r.
  - pose proof (handle_added v req e) as Ha.
    destruct (handle v req e) as [r e1] eqn:Hrun.
    specialize (IH e1).
    destruct (serve v rest e1) as [rs e2]; simpl in *.
    destruct IH as (Hlen & Hd & Hpush & Hsl).
    unfold all_added, all_announced in *; simpl.
    repeat split.
    + rewrite Hlen; reflexivity.
    + rewrite Hd, Ha, <- app_assoc; reflexivity.
    + intros ->.
      pose proof (handle_announced req e) as Han.
      rewrite Hrun in Han; simpl in Han.
      rewrite (Hpush eq_refl), Han, rev_app_distr, rev_announced.
      rewrite <- app_assoc; reflexivity.
    + intros ->.
      rewrite (Hsl eq_refl).
      pose proof (serverless_emits_nothing req e) as He.
      rewrite Hrun in He; exact He.
Qed.

(** X8: the push variant emits after the write and what the request
    sent, not what was stored: a [POST] answered 200 emits one event that
    carries the body's values as they came (the store holds their casts to
    [Number]) and, for a reading, the stored timestamp; a request that is
    not answered 200, and every [GET], emits nothing. *)
Theorem push_event_as_sent (req : Request) (e : Env) :
  let r := fst (handle PushVariant req e) in
  let e' := snd (handle PushVariant req e) in
  (endpoint req = POST_api_config -> succeeded r ->
   exists c,
     r = ok_config c
     /\ castNumber (get_prop "threshold" (body req)) = Some (threshold c)
     /\ emitted e'
        = config_update (get_prop "threshold" (body req)) :: emitted e)
  /\ (endpoint req = POST_api_esp8266_data -> succeeded r ->
      exists d,
        r = Ok {| status := 200; payload := PReading d |}
        /\ castNumber (get_prop "temperature" (body req))
           = Some (temperature d)
        /\ castNumber (get_prop "fanSpeed" (body req)) = Some (fanSpeed d)
        /\ emitted e'
           = data_update (get_prop "temperature" (body req))
               (get_prop "fanSpeed" (body req)) (timestamp d)
             :: emitted e)
  /\ (~ succeeded r -> emitted e' = emitted e)
  /\ (is_post (endpoint req) = false -> emitted e' = emitted e).
Proof.
  destruct (handle PushVariant req e) as [r e'] eqn:Hrun.
  destruct req as [ep b].
  destruct e as [[ds cs] c p n ic co em tr]; simpl.
  unfold succeeded, ok_config.
  destruct ep; run_handler Hrun; repeat split; intros; simpl in *;
    try discriminate;
    repeat match goal with
           | H : exists _, _ |- _ => destruct H
           end;
    try congruence;
    try solve [eexists; repeat split; solve [reflexivity | eassumption]];
    try solve [exfalso; match goal with
                        | H : ~ _ |- _ => apply H; eexists; reflexivity
                        end].
Qed.

Lemma push_event_as_sent_witness :
  let req := request POST_api_config [("threshold", JStr "42")] in
  let e := quiet_env {| datas := [];
                        configs := [stored_config 7 30 500] |} in
  exists c,
    fst (handle PushVariant req e) = ok_config c
    /\ threshold c = num 42
    /\ emitted (snd (handle PushVariant req e))
       = [config_update (JStr "42")].
Proof.
  intros req e.
  destruct (push_event_as_sent req e) as (H & _).
  destruct (H eq_refl) as (c & Hr & Hcast & Hem).
  - eexists; reflexivity.
  - exists c; split; [exact Hr | split; [|exact Hem]].
    vm_compute in Hcast; inversion Hcast as [Hthr]; symmetry; exact Hthr.
Defined.

(** ** The order of the readings *)

Lemma sort_desc_newest (l : list DataDoc) (d : DataDoc) :
  Forall (fun x => timestamp x < timestamp d) l ->
  sort_desc (l ++ [d]) = d :: sort_desc l.
Proof.
  induction l as [|a l IH]; simpl; intros Hl.
  - reflexivity.
  - inversion Hl as [|? ? Ha Hrest]; subst.
    rewrite (IH Hrest); simpl.
    destruct (Z.leb_spec (timestamp d) (timestamp a)); [lia | reflexivity].
Qed.

Lemma descending_app (l1 l2 : list DataDoc) :
  descending (l1 ++ l2) ->
  forall a b, In a l1 -> In b l2 -> timestamp b <= timestamp a.
Proof.
  unfold descending.
  induction l1 as [|x l1 IH]; simpl; intros Hs a b Ha Hb.
  - contradiction.
  - inversion Hs as [|? ? Hrest Hx]; subst.
    destruct Ha as [->|Ha].
    + rewrite Forall_forall in Hx; apply Hx, in_or_app; right; exact Hb.
    + apply (IH Hrest a b Ha Hb).
Qed.

Lemma recent_length (limit : nat) (l : list DataDoc) :
  List.length (recent limit l) = Nat.min limit (List.length l).
Proof.
  unfold recent.
  rewrite length_firstn.
  rewrite (Permutation_length (sort_desc_perm l)); reflexivity.
Qed.

Lemma recent_all (limit : nat) (l : list DataDoc) :
  (List.length l <= limit)%nat -> Permutation (recent limit l) l.
Proof.
  intros Hlen; unfold recent.
  rewrite firstn_all2.
  - apply sort_desc_perm.
  - rewrite (Permutation_length (sort_desc_perm l)); exact Hlen.
Qed.

Lemma recent_newest (limit : nat) (l : list DataDoc) (d x : DataDoc) :
  In d (recent limit l) -> In x l -> ~ In x (recent limit l) ->
  timestamp x <= timestamp d.
Proof.
  unfold recent; intros Hd Hx Hnx.
  pose proof (sort_desc_descending l) as Hs.
  rewrite <- (firstn_skipn limit (sort_desc l)) in Hs.
  apply (descending_app _ _ Hs d x Hd).
  apply (Permutation_in x (Permutation_sym (sort_desc_perm l))) in Hx.
  rewrite <- (firstn_skipn limit (sort_desc l)) in Hx.
  apply in_app_or in Hx; destruct Hx as [Hx|Hx]; [contradiction|exact Hx].
Qed.

Lemma get_api_data_answer
  (v : Variant) (req : Request) (e : Env) (data : list DataDoc) :
  endpoint req = GET_api_data ->
  fst (handle v req e) = ok_readings data ->
  data = recent 50 (datas (store e)).
Proof.
  intros Hep.
  destruct (handle v req e) as [r e'] eqn:Hrun.
  destruct req as [ep b]; simpl in Hep; subst ep.
  destruct e as [[ds cs] c p n ic co em tr]; simpl.
  unfold ok_readings.
  destruct cs as [|c0 cs]; destruct v; run_handler Hrun;
    intros H; inversion H; reflexivity.
Qed.

(** X9: what [GET /api/data] answers with 200 are the newest readings of
    the store: all of them when there are at most 50, exactly 50
    otherwise, and no reading left out is newer than one that is
    returned. *)
Theorem recent_readings_are_the_newest
  (v : Variant) (req : Request) (e : Env) (data : list DataDoc) :
  endpoint req = GET_api_data ->
  fst (handle v req e) = ok_readings data ->
  List.length data = Nat.min 50 (List.length (datas (store e)))
  /\ ((List.length (datas (store e)) <= 50)%nat ->
      Permutation data (datas (store e)))
  /\ (forall d x, In d data -> In x (datas (store e)) -> ~ In x data ->
      timestamp x <= timestamp d).
Proof.
  intros Hep Hr.
  rewrite (get_api_data_answer v req e data Hep Hr).
  repeat split.
  - apply recent_length.
  - apply recent_all.
  - apply recent_newest.
Qed.

Lemma recent_readings_are_the_newest_witness :
  let e := quiet_env {| datas := [reading 0 900; reading 1 950;
                                  reading 2 920];
                        configs := [stored_config 7 30 500] |} in
  Permutation [reading 1 950; reading 2 920; reading 0 900]
    (datas (store e)).
Proof.
  intros e.
  destruct (recent_readings_are_the_newest PushVariant
              (request GET_api_data []) e
              [reading 1 950; reading 2 920; reading 0 900]
              eq_refl eq_refl) as (_ & H & _).
  apply H; simpl; lia.
Defined.

(** X10: a reading that has just been posted comes first in the next
    [GET /api/data], followed by the 49 newest of the readings stored
    before, provided its timestamp lies strictly after theirs. *)
Theorem posted_reading_comes_first
  (v : Variant) (post get : Request) (e : Env) (d : DataDoc)
  (data : list DataDoc) :
  endpoint post = POST_api_esp8266_data ->
  endpoint get = GET_api_data ->
  fst (handle v post e) = Ok {| status := 200; payload := PReading d |} ->
  Forall (fun x => timestamp x < timestamp d) (datas (store e)) ->
  fst (handle v get (snd (handle v post e))) = ok_readings data ->
  data = d :: recent 49 (datas (store e)).
Proof.
  intros Hp Hg Hr Hnew Hdata.
  apply (get_api_data_answer v get _ data Hg) in Hdata.
  pose proof (handle_added v post e) as Ha.
  rewrite Hr in Ha.
  unfold added in Ha; rewrite Hp in Ha; simpl in Ha.
  rewrite Hdata, Ha.
  unfold recent; rewrite (sort_desc_newest _ _ Hnew); reflexivity.
Qed.

Lemma posted_reading_comes_first_witness :
  let e := quiet_env {| datas := [reading 0 900; reading 1 950];
                        configs := [stored_config 7 30 500] |} in
  let post := request POST_api_esp8266_data
                [("temperature", num 31); ("fanSpeed", num 80)] in
  let d := {| data_id := 0; temperature := num 31; fanSpeed := num 80;
              timestamp := 1000 |} in
  fst (handle PushVariant (request GET_api_data [])
         (snd (handle PushVariant post e)))
  = ok_readings [d; reading 1 950; reading 0 900].
Proof.
  intros e post d.
  assert (Hnew : Forall (fun x => timestamp x < timestamp d)
                   (datas (store e)))
    by (repeat constructor).
  rewrite (posted_reading_comes_first PushVariant post
             (request GET_api_data []) e d
             [d; reading 1 950; reading 0 900]
             eq_refl eq_refl eq_refl Hnew eq_refl).
  reflexivity.
Defined.

(** ** Timestamps *)

Lemma ascending_snoc (l : list DataDoc) (d : DataDoc) :
  ascending l -> Forall (fun x => timestamp x <= timestamp d) l ->
  ascending (l ++ [d]).
Proof.
  unfold ascending.
  induction l as [|a l IH]; simpl; intros Hs Hall.
  - constructor; constructor.
  - inversion Hs as [|? ? Hrest Ha]; subst.
    inversion Hall as [|? ? Had Hl]; subst.
    constructor; [apply IH; assumption|].
    apply Forall_app; split; [exact Ha|].
    constructor; [exact Had | constructor].
Qed.

Lemma handle_chronological (v : Variant) (req : Request) (e : Env) :
  chronological e ->
  let e' := snd (handle v req e) in
  chronological e'
  /\ clock e <= clock e'
  /\ (forall c rest,
        configs (store e) = c :: rest ->
        exists c', configs (store e') = c' :: rest
                   /\ lastUpdated c <= lastUpdated c').
Proof.
  unfold chronological.
  destruct (handle v req e) as [r e'] eqn:Hrun.
  destruct req as [ep b].
  destruct e as [[ds cs] c p n ic co em tr]; simpl.
  intros (Hd & Hc & Ha).
  destruct cs as [|c0 cs];
    [|inversion Hc as [|? ? Hc0 Hcs]; subst];
    destruct v, ep; run_handler Hrun;
    (split;
     [ split; [chrono|split; [chrono|]];
       first [ assumption | apply ascending_snoc; [assumption|chrono] ]
     | split; [lia|] ]);
    intros; simpl in *;
    repeat match goal with
           | H : _ :: _ = _ :: _ |- _ => inversion H; subst; clear H
           end;
    try discriminate;
    (eexists; split; [reflexivity | simpl; lia]).
Qed.

(** X11: with a clock that never runs backwards, time is kept in the
    store.  From a state in which nothing is stamped in the future and the
    readings lie in the order of their timestamps, any sequence of
    requests of either variant leads to such a state again; the natural
    order of the readings stays their chronological order, and the
    [lastUpdated] of an existing [Config] never decreases. *)
Theorem history_is_chronological
  (v : Variant) (reqs : list Request) (e : Env) :
  chronological e ->
  let e' := snd (serve v reqs e) in
  chronological e'
  /\ clock e <= clock e'
  /\ (forall c rest,
        configs (store e) = c :: rest ->
        exists c', configs (store e') = c' :: rest
                   /\ lastUpdated c <= lastUpdated c').
Proof.
  revert e; induction reqs as [|req rest IH]; intros e He; simpl.
  - split; [exact He | split; [lia|]].
    intros c rest Hc; exists c; split; [exact Hc | lia].
  - destruct (handle_chronological v req e He) as (He1 & Hclock & Hcfg).
    destruct (handle v req e) as [r e1] eqn:Hrun; simpl in *.
    destruct (IH e1 He1) as (He2 & Hclock2 & Hcfg2).
    destruct (serve v rest e1) as [rs e2]; simpl in *.
    split; [exact He2 | split; [lia|]].
    intros c rest0 Hc.
    destruct (Hcfg c rest0 Hc) as (c1 & Hc1 & Hle1).
    destruct (Hcfg2 c1 rest0 Hc1) as (c2 & Hc2 & Hle2).
    exists c2; split; [exact Hc2 | lia].
Qed.

Lemma history_is_chronological_witness :
  let e := quiet_env {| datas := [reading 0 900; reading 1 950];
                        configs := [stored_config 7 30 500] |} in
  let reqs := [ request POST_api_config [("threshold", num 42)];
                request POST_api_esp8266_data
                  [("temperature", num 31); ("fanSpeed", num 80)];
                request GET_api_data [] ] in
  chronological (snd (serve ServerlessVariant reqs e)).
Proof.
  intros e reqs.
  assert (He : chronological e).
  { unfold chronological, ascending; simpl.
    repeat split; repeat constructor; simpl; lia. }
  destruct (history_is_chronological ServerlessVariant reqs e He)
    as (H & _).
  exact H.
Defined.

(** ** The number of [Config] documents *)

Lemma handle_config_count (v : Variant) (req : Request) (e : Env) :
  let n := List.length (configs (store e)) in
  let n' := List.length (configs (store (snd (handle v req e)))) in
  (n <= n')%nat /\ (n' <= Nat.max 1 n)%nat.
Proof.
  destruct (handle v req e) as [r e'] eqn:Hrun.
  destruct req as [ep b].
  destruct e as [[ds cs] c p n ic co em tr]; simpl.
  destruct cs as [|c0 cs]; destruct v, ep; run_handler Hrun; lia.
Qed.

(** X14: over any sequence of requests of either variant the number of
    [Config] documents never decreases, and it grows only from none to
    one: a collection that holds a document keeps its size, an empty one
    ends with at most one. *)
Theorem config_count_is_stable
  (v : Variant) (reqs : list Request) (e : Env) :
  let n := List.length (configs (store e)) in
  let n' := List.length (configs (store (snd (serve v reqs e)))) in
  (n <= n')%nat /\ (n' <= Nat.max 1 n)%nat.
Proof.
  revert e; induction reqs as [|req rest IH]; intros e; cbn [serve].
  - cbn [fst snd]; split; [lia | apply Nat.le_max_r].
  - pose proof (handle_config_count v req e) as H1.
    destruct (handle v req e) as [r e1] eqn:Hrun.
    pose proof (IH e1) as H2.
    destruct (serve v rest e1) as [rs e2].
    cbn [fst snd] in *; cbv zeta in *; lia.
Qed.

(** ** Errors of the configuration initialisation, and the console *)

(** X12: [initializeConfig] of the serverless variant always returns
    normally, whatever the storage does.  The one the push variant runs at
    start-up has no [catch]: it returns normally when no round trip fails,
    and when it throws, the error is the storage error of the round trip
    that failed and the store is as before.  Both make the same round
    trips and leave the same store. *)
Theorem initializeConfig_outcomes (e : Env) :
  (exists e', Serverless.initializeConfig e = (Ok tt, e'))
  /\ (fault_free e -> exists e', Push.initializeConfig e = (Ok tt, e'))
  /\ (forall err e',
        Push.initializeConfig e = (Throw err, e') ->
        store e' = store e
        /\ exists op message rest,
             err = StorageError message
             /\ trace e' = (op, Some message) :: rest)
  /\ (forall e1 e2,
        Serverless.initializeConfig e = (Ok tt, e1) ->
        snd (Push.initializeConfig e) = e2 ->
        store e1 = store e2 /\ clock e1 = clock e2
        /\ pending e1 = pending e2 /\ trace e1 = trace e2).
Proof.
  destruct (Serverless.initializeConfig e) as [r1 e1] eqn:Hrun1.
  destruct (Push.initializeConfig e) as [r2 e2] eqn:Hrun2.
  destruct e as [[ds cs] c p n ic co em tr]; simpl.
  destruct cs as [|c0 cs];
    run_handler Hrun1; run_handler Hrun2; repeat split; intros;
    invert_fault_free;
    repeat match goal with
           | H : Some _ = Some _ |- _ => inversion H; subst; clear H
           | H : (_, _) = (_, _) |- _ => inversion H; subst; clear H
           end;
    subst; try congruence;
    try solve [eexists; reflexivity];
    try solve [repeat eexists].
Qed.

(** X13: the serverless routes log what they answer with 500: the
    latest entry of the console is then the caught error under the text of
    the route, and nothing is ever removed from the console.  The routes
    of the push variant never write to the console. *)
Theorem errors_are_logged (req : Request) (e : Env) :
  (forall err,
     fst (handle ServerlessVariant req e) = Ok (server_error err) ->
     hd_error (console (snd (handle ServerlessVariant req e)))
     = Some (LogError (route_label (endpoint req)) err))
  /\ (exists new,
        console (snd (handle ServerlessVariant req e))
        = (new ++ console e)%list)
  /\ console (snd (handle PushVariant req e)) = console e.
Proof.
  destruct (handle ServerlessVariant req e) as [r e'] eqn:Hrun.
  destruct (handle PushVariant req e) as [r2 e2] eqn:Hrun2.
  destruct req as [ep b].
  destruct e as [[ds cs] c p n ic co em tr]; simpl.
  destruct ep; run_handler Hrun; run_handler Hrun2;
    (split; [intros err Herr; inversion Herr; subst; reflexivity|]);
    (split; [|reflexivity]);
    first
      [ exists (@nil LogEntry); reflexivity
      | eexists (_ :: nil); reflexivity
      | eexists (_ :: _ :: nil); reflexivity
      | eexists (_ :: _ :: _ :: nil); reflexivity
      | eexists (_ :: _ :: _ :: _ :: nil); reflexivity ].
Qed.
